(** * The generator store of RedInk (frontend/src/stores/generator.ts)

    A shallow embedding of the Pinia store that drives the workflow
    "topic -> outline -> image generation -> result", and the properties of
    its actions.

    Conventions of the embedding:
    - a JavaScript [number] that holds an index, a position or a counter is
      a [Z];
    - an optional property ([error?: string]) and a nullable one
      ([string | null]) are an [option]; [None] is [undefined]/[null];
    - an array is a [list] and an object is a value.  An assignment to a
      property of the object that [find] returned is an update of the list
      at the position of that object.  The embedding covers the states in
      which an array holds an object at one position only, which is what the
      store builds: pages come from a parsed response or are created by
      [addPage] and [insertPage], images are created by [startGeneration].
      Where an action mutates objects that a local array shares with the
      array of the store ([movePage]), the effect on the store is written
      out;
    - an action is a function on the [World]: the store, [localStorage] and
      the clock, and it returns or throws. *)

From Stdlib Require Import ZArith DecimalString Lia.
From stdpp Require Import base option list strings gmap.

Local Open Scope Z_scope.

(** ** Data model *)

Module PageType.
Inductive t := cover | content | summary.
End PageType.

Module Stage.
Inductive t := input | outline | generating | result.
End Stage.

(** ['idle' | 'generating' | 'done' | 'error'], the status of the progress,
    of the content and of the outline. *)
Module Status.
Inductive t := idle | generating | done | error.
End Status.

(** [GeneratedImage.status]. *)
Module ImageStatus.
Inductive t := generating | done | error | retrying.
End ImageStatus.

(** The [status] parameter of [updateProgress]:
    ['generating' | 'done' | 'error']. *)
Module UpdateStatus.
Inductive t := generating | done | error.

Definition to_image (s : t) : ImageStatus.t :=
  match s with
  | generating => ImageStatus.generating
  | done => ImageStatus.done
  | error => ImageStatus.error
  end.
End UpdateStatus.

(** [Page] of ../api: [{ index, type, content }]. *)
Module Page.
Record t := mk { index : Z; type : PageType.t; content : string }.

Definition set_index (v : Z) (p : t) : t := mk v (type p) (content p).
Definition set_content (v : string) (p : t) : t := mk (index p) (type p) v.
End Page.

Module Image.
Record t := mk {
  index : Z;
  url : string;
  status : ImageStatus.t;
  error : option string;
  retryable : option bool;
  progress : option Z
}.

Definition set_url (v : string) (i : t) : t :=
  mk (index i) v (status i) (error i) (retryable i) (progress i).
Definition set_status (v : ImageStatus.t) (i : t) : t :=
  mk (index i) (url i) v (error i) (retryable i) (progress i).
Definition set_error (v : option string) (i : t) : t :=
  mk (index i) (url i) (status i) v (retryable i) (progress i).
Definition set_progress (v : option Z) (i : t) : t :=
  mk (index i) (url i) (status i) (error i) (retryable i) v.
End Image.

Module Content.
Record t := mk {
  titles : list string;
  copywriting : string;
  tags : list string;
  status : Status.t;
  error : option string
}.
End Content.

Module Outline.
Record t := mk { raw : string; pages : list Page.t }.
End Outline.

Module Progress.
Record t := mk { current : Z; total : Z; status : Status.t }.
End Progress.

(** A browser [File] handle; the store only keeps or drops them. *)
Inductive File := file_handle (id : nat).

Record GeneratorState := mkState {
  stage : Stage.t;
  topic : string;
  outline : Outline.t;
  progress : Progress.t;
  images : list Image.t;
  taskId : option string;
  recordId : option string;
  userImages : list File;
  content : Content.t;
  outlineStatus : Status.t;
  lastSavedAt : option string
}.

Definition pages (s : GeneratorState) : list Page.t := Outline.pages (outline s).
Definition raw (s : GeneratorState) : string := Outline.raw (outline s).
Definition current (s : GeneratorState) : Z := Progress.current (progress s).

(** Assignments to one property of [this]. *)
Definition set_stage (v : Stage.t) (s : GeneratorState) : GeneratorState :=
  mkState v (topic s) (outline s) (progress s) (images s) (taskId s)
    (recordId s) (userImages s) (content s) (outlineStatus s) (lastSavedAt s).
Definition set_topic (v : string) (s : GeneratorState) : GeneratorState :=
  mkState (stage s) v (outline s) (progress s) (images s) (taskId s)
    (recordId s) (userImages s) (content s) (outlineStatus s) (lastSavedAt s).
Definition set_outline (v : Outline.t) (s : GeneratorState) : GeneratorState :=
  mkState (stage s) (topic s) v (progress s) (images s) (taskId s)
    (recordId s) (userImages s) (content s) (outlineStatus s) (lastSavedAt s).
Definition set_progress (v : Progress.t) (s : GeneratorState) : GeneratorState :=
  mkState (stage s) (topic s) (outline s) v (images s) (taskId s)
    (recordId s) (userImages s) (content s) (outlineStatus s) (lastSavedAt s).
Definition set_images (v : list Image.t) (s : GeneratorState) : GeneratorState :=
  mkState (stage s) (topic s) (outline s) (progress s) v (taskId s)
    (recordId s) (userImages s) (content s) (outlineStatus s) (lastSavedAt s).
Definition set_taskId (v : option string) (s : GeneratorState) : GeneratorState :=
  mkState (stage s) (topic s) (outline s) (progress s) (images s) v
    (recordId s) (userImages s) (content s) (outlineStatus s) (lastSavedAt s).
Definition set_recordId (v : option string) (s : GeneratorState) : GeneratorState :=
  mkState (stage s) (topic s) (outline s) (progress s) (images s) (taskId s)
    v (userImages s) (content s) (outlineStatus s) (lastSavedAt s).
Definition set_userImages (v : list File) (s : GeneratorState) : GeneratorState :=
  mkState (stage s) (topic s) (outline s) (progress s) (images s) (taskId s)
    (recordId s) v (content s) (outlineStatus s) (lastSavedAt s).
Definition set_content (v : Content.t) (s : GeneratorState) : GeneratorState :=
  mkState (stage s) (topic s) (outline s) (progress s) (images s) (taskId s)
    (recordId s) (userImages s) v (outlineStatus s) (lastSavedAt s).
Definition set_outlineStatus (v : Status.t) (s : GeneratorState) : GeneratorState :=
  mkState (stage s) (topic s) (outline s) (progress s) (images s) (taskId s)
    (recordId s) (userImages s) (content s) v (lastSavedAt s).
Definition set_lastSavedAt (v : option string) (s : GeneratorState) : GeneratorState :=
  mkState (stage s) (topic s) (outline s) (progress s) (images s) (taskId s)
    (recordId s) (userImages s) (content s) (outlineStatus s) v.

(** Assignments to a property of [this.outline] and of [this.progress]. *)
Definition set_raw (v : string) (s : GeneratorState) : GeneratorState :=
  set_outline (Outline.mk v (pages s)) s.
Definition set_pages (v : list Page.t) (s : GeneratorState) : GeneratorState :=
  set_outline (Outline.mk (raw s) v) s.
Definition set_current (v : Z) (s : GeneratorState) : GeneratorState :=
  set_progress (Progress.mk v (Progress.total (progress s))
                  (Progress.status (progress s))) s.
Definition set_total (v : Z) (s : GeneratorState) : GeneratorState :=
  set_progress (Progress.mk (Progress.current (progress s)) v
                  (Progress.status (progress s))) s.
Definition set_progress_status (v : Status.t) (s : GeneratorState) : GeneratorState :=
  set_progress (Progress.mk (Progress.current (progress s))
                  (Progress.total (progress s)) v) s.

(** ** The world of an action *)

(** [window.localStorage]: a map from keys to texts.  A browser that denies
    storage access raises on every call ([storage_denied]); [loadState] and
    [saveState] wrap their calls in [try]/[catch]. *)
Inductive LocalStorage :=
| storage_denied
| storage_items (items : gmap string string).

Definition STORAGE_KEY : string := "generator-state".

Record World := mkWorld {
  store : GeneratorState;
  localStorage : LocalStorage;
  clock : Z  (* what [Date.now()] returns *)
}.

Inductive Exn := TypeError | SyntaxError | SecurityError.

Inductive Outcome (A : Type) :=
| Returned (a : A)
| Threw (e : Exn).
Arguments Returned {A} a.
Arguments Threw {A} e.

Definition Action (A : Type) : Type := World → Outcome A * World.

Definition run {A} (m : Action A) (w : World) : Outcome A * World := m w.
(** The world an action leaves behind, whether it returned or threw. *)
Definition exec {A} (m : Action A) (w : World) : World := (run m w).2.

Definition ret {A} (a : A) : Action A := λ w, (Returned a, w).
Definition bind {A B} (m : Action A) (k : A → Action B) : Action B :=
  λ w, match m w with
       | (Returned a, w') => k a w'
       | (Threw e, w') => (Threw e, w')
       end.
Definition throw {A} (e : Exn) : Action A := λ w, (Threw e, w).
Definition try_catch {A} (m : Action A) (handler : Exn → Action A) : Action A :=
  λ w, match m w with
       | (Returned a, w') => (Returned a, w')
       | (Threw e, w') => handler e w'
       end.

(** The actions are written with the monadic notations [x ← m; k] and
    [m;; k]. *)
#[global] Instance action_ret : MRet Action := @ret.
#[global] Instance action_bind : MBind Action := λ A B k m, bind m k.

(** Reading and assigning [this]. *)
Definition gets {A} (f : GeneratorState → A) : Action A :=
  λ w, (Returned (f (store w)), w).
Definition modify (f : GeneratorState → GeneratorState) : Action unit :=
  λ w, (Returned (), mkWorld (f (store w)) (localStorage w) (clock w)).

Definition Date_now : Action Z := λ w, (Returned (clock w), w).

Definition localStorage_getItem (key : string) : Action (option string) :=
  λ w, match localStorage w with
       | storage_denied => (Threw SecurityError, w)
       | storage_items items => (Returned (items !! key), w)
       end.
Definition localStorage_setItem (key value : string) : Action unit :=
  λ w, match localStorage w with
       | storage_denied => (Threw SecurityError, w)
       | storage_items items =>
           (Returned (),
            mkWorld (store w) (storage_items (<[key := value]> items)) (clock w))
       end.
Definition localStorage_removeItem (key : string) : Action unit :=
  λ w, match localStorage w with
       | storage_denied => (Threw SecurityError, w)
       | storage_items items =>
           (Returned (),
            mkWorld (store w) (storage_items (delete key items)) (clock w))
       end.

(** ** JavaScript built-ins used by the actions *)

(** [Array.prototype.join] on an array of strings. *)
Fixpoint join (sep : string) (l : list string) : string :=
  match l with
  | [] => ""
  | [x] => x
  | x :: rest => x +:+ sep +:+ join sep rest
  end.

(** [Array.prototype.find]: the first element that satisfies the predicate,
    with its position (the object that an assignment then mutates). *)
Definition find {A} (P : A → Prop) `{∀ x, Decision (P x)} (l : list A)
  : option (nat * A) := list_find P l.
#[global] Arguments find : simpl never.

(** The clamped start position of [Array.prototype.splice]: a negative
    [start] counts from the end. *)
Definition splice_start (len : nat) (start : Z) : nat :=
  if start <? 0 then Z.to_nat (Z.max (Z.of_nat len + start) 0)
  else Z.to_nat (Z.min start (Z.of_nat len)).

(** [l.splice(start, deleteCount, ...items)]: the removed elements and the
    array afterwards. *)
Definition splice {A} (start : Z) (deleteCount : nat) (items : list A)
    (l : list A) : list A * list A :=
  let k := splice_start (length l) start in
  (take deleteCount (drop k l), take k l ++ items ++ drop (k + deleteCount) l).

(** [String(n)] for an integer [n], as a template literal prints it. *)
Definition Number_toString (n : Z) : string :=
  NilZero.string_of_int (Z.to_int n).

(** JavaScript truthiness of a string, and of a
    [string | null | undefined]. *)
Definition truthy_string (s : string) : bool := negb (String.eqb s "").

Definition truthy (x : option string) : bool :=
  match x with
  | Some s => truthy_string s
  | None => false
  end.

(** ** The actions of the store *)

Definition LF : string := String (Ascii.ascii_of_nat 10) EmptyString.

(** The separator of [syncRawFromPages]: ['\n\n<page>\n\n']. *)
Definition PAGE_SEPARATOR : string := LF +:+ LF +:+ "<page>" +:+ LF +:+ LF.

(** Lines 177-191. *)
Definition setTopic (topic : string) : Action unit :=
  modify (set_topic topic).

Definition setOutline (raw : string) (pages : list Page.t) : Action unit :=
  modify (set_raw raw);;
  modify (set_pages pages);;
  modify (set_stage Stage.outline);;
  modify (set_outlineStatus Status.done).

(** Lines 211-215. *)
Definition syncRawFromPages : Action unit :=
  ps ← gets pages;
  modify (set_raw (join PAGE_SEPARATOR (Page.content <$> ps))).

(** Lines 198-205.  [page.content = content] on the page that [find]
    returned. *)
Definition updatePage (index : Z) (content : string) : Action unit :=
  ps ← gets pages;
  match find (λ p, Page.index p = index) ps with
  | Some (k, page) =>
      modify (set_pages (<[k := Page.set_content content page]> ps));;
      syncRawFromPages
  | None => mret ()
  end.

(** [pages.forEach((page, idx) => { page.index = idx })] on an array of
    pages. *)
Definition reindex (ps : list Page.t) : list Page.t :=
  imap (λ idx page, Page.set_index (Z.of_nat idx) page) ps.

(** Lines 221-229. *)
Definition deletePage (index : Z) : Action unit :=
  ps ← gets pages;
  modify (set_pages (filter (λ p, Page.index p ≠ index) ps));;
  ps ← gets pages;
  modify (set_pages (reindex ps));;
  syncRawFromPages.

(** Lines 236-245.  [content] is the parameter [content: string = '']:
    [None] when the caller leaves it out. *)
Definition addPage (type : PageType.t) (content : option string) : Action unit :=
  ps ← gets pages;
  let newPage := Page.mk (Z.of_nat (length ps)) type (default "" content) in
  modify (set_pages (ps ++ [newPage]));;
  syncRawFromPages.

(** Lines 253-266. *)
Definition insertPage (afterIndex : Z) (type : PageType.t)
    (content : option string) : Action unit :=
  let newPage := Page.mk (afterIndex + 1) type (default "" content) in
  ps ← gets pages;
  modify (set_pages (splice (afterIndex + 1) 0 [newPage] ps).2);;
  ps ← gets pages;
  modify (set_pages (reindex ps));;
  syncRawFromPages.

(** The same [forEach] on the local array of [movePage], which can hold
    [undefined] ([None]): the assignment [page.index = idx] raises a
    [TypeError] there, after the pages before it have been renumbered. *)
Fixpoint reindex_from (idx : nat) (ps : list (option Page.t))
  : list (option Page.t) * option Exn :=
  match ps with
  | [] => ([], None)
  | Some page :: rest =>
      let '(rest', e) := reindex_from (S idx) rest in
      (Some (Page.set_index (Z.of_nat idx) page) :: rest', e)
  | None :: rest => (None :: rest, Some TypeError)
  end.

(** Lines 273-286.  [movePage] works on a copy of the array that shares the
    page objects with [this.outline.pages].  When [splice(fromIndex, 1)]
    removes nothing, [movedPage] is [undefined], it is inserted all the
    same, and [forEach] raises on it: the store keeps its array, whose
    objects are those of the copy in the same order, renumbered up to the
    insertion point. *)
Definition movePage (fromIndex toIndex : Z) : Action unit :=
  ps ← gets pages;
  let pages0 : list (option Page.t) := Some <$> ps in
  let '(removed, pages1) := splice fromIndex 1 [] pages0 in
  let movedPage : option Page.t := mjoin (head removed) in
  let pages2 := (splice toIndex 0 [movedPage] pages1).2 in
  match reindex_from 0 pages2 with
  | (pages3, Some e) =>
      modify (set_pages (omap id pages3));;
      throw e
  | (pages3, None) =>
      modify (set_pages (omap id pages3));;
      syncRawFromPages
  end.

(** Lines 292-303. *)
Definition startGeneration : Action unit :=
  modify (set_stage Stage.generating);;
  modify (set_current 0);;
  ps ← gets pages;
  modify (set_total (Z.of_nat (length ps)));;
  modify (set_progress_status Status.generating);;
  ps ← gets pages;
  modify (set_images
    ((λ page, Image.mk (Page.index page) "" ImageStatus.generating
                None None None) <$> ps)).

(** Lines 312-323.  [url] and [error] are the optional parameters; an empty
    string is falsy and assigns nothing, like [undefined]. *)
Definition updateProgress (index : Z) (status : UpdateStatus.t)
    (url error : option string) : Action unit :=
  imgs ← gets images;
  match find (λ img, Image.index img = index) imgs with
  | Some (k, image) =>
      let image := Image.set_status (UpdateStatus.to_image status) image in
      let image :=
        if truthy url then Image.set_url (default "" url) image else image in
      let image :=
        if truthy error then Image.set_error error image else image in
      modify (set_images (<[k := image]> imgs))
  | None => mret ()
  end;;
  match status with
  | UpdateStatus.done =>
      c ← gets current;
      modify (set_current (c + 1))
  | _ => mret ()
  end.

(** Lines 330-335. *)
Definition updateImageProgress (index : Z) (progress : Z) : Action unit :=
  imgs ← gets images;
  match find (λ img, Image.index img = index) imgs with
  | Some (k, image) =>
      modify (set_images (<[k := Image.set_progress (Some progress) image]> imgs))
  | None => mret ()
  end.

(** Lines 342-351.  [delete image.error] leaves the image without an
    error. *)
Definition updateImage (index : Z) (newUrl : string) : Action unit :=
  imgs ← gets images;
  match find (λ img, Image.index img = index) imgs with
  | Some (k, image) =>
      timestamp ← Date_now;
      let image :=
        Image.set_url (newUrl +:+ "?t=" +:+ Number_toString timestamp) image in
      let image := Image.set_status ImageStatus.done image in
      let image := Image.set_error None image in
      modify (set_images (<[k := image]> imgs))
  | None => mret ()
  end.

(** Lines 357-361. *)
Definition finishGeneration (taskId : string) : Action unit :=
  modify (set_taskId (Some taskId));;
  modify (set_stage Stage.result);;
  modify (set_progress_status Status.done).

(** Lines 367-372. *)
Definition setImageRetrying (index : Z) : Action unit :=
  imgs ← gets images;
  match find (λ img, Image.index img = index) imgs with
  | Some (k, image) =>
      modify (set_images
        (<[k := Image.set_status ImageStatus.retrying image]> imgs))
  | None => mret ()
  end.

(** Lines 405-453. *)
Definition reset : Action unit :=
  modify (set_stage Stage.input);;
  modify (set_topic "");;
  modify (set_outline (Outline.mk "" []));;
  modify (set_progress (Progress.mk 0 0 Status.idle));;
  modify (set_images []);;
  modify (set_taskId None);;
  modify (set_recordId None);;
  modify (set_userImages []);;
  modify (set_content (Content.mk [] "" [] Status.idle None));;
  modify (set_outlineStatus Status.idle);;
  modify (set_lastSavedAt None);;
  localStorage_removeItem STORAGE_KEY.

(** Lines 577-592. *)
Definition hasUnsavedChanges : Action bool :=
  rid ← gets recordId;
  if negb (truthy rid) then
    t ← gets topic;
    ps ← gets pages;
    imgs ← gets images;
    mret (truthy_string t || (0 <? length ps)%nat || (0 <? length imgs)%nat)
  else
    saved_at ← gets lastSavedAt;
    if negb (truthy saved_at) then mret true else mret false.

(** ** The other actions of the store *)

#[global] Instance ImageStatus_eq_dec : EqDecision ImageStatus.t.
Proof. solve_decision. Defined.

(** An image whose generation failed. *)
Definition failed (img : Image.t) : Prop :=
  Image.status img = ImageStatus.error.

(** Lines 378-380. *)
Definition getFailedImages : Action (list Image.t) :=
  imgs ← gets images;
  mret (filter failed imgs).

(** Lines 386-391.  [failedIndices.includes(page.index)] is membership of
    the number in the array. *)
Definition getFailedPages : Action (list Page.t) :=
  imgs ← gets images;
  let failedIndices := Image.index <$> filter failed imgs in
  ps ← gets pages;
  mret (filter (λ page, Page.index page ∈ failedIndices) ps).

(** Lines 397-399.  [Array.prototype.some]. *)
Definition hasFailedImages : Action bool :=
  imgs ← gets images;
  mret (bool_decide (Exists failed imgs)).

(** Assignments to a property of [this.content]. *)
Definition set_content_titles (v : list string) (s : GeneratorState) : GeneratorState :=
  set_content (Content.mk v (Content.copywriting (content s))
                 (Content.tags (content s)) (Content.status (content s))
                 (Content.error (content s))) s.
Definition set_content_copywriting (v : string) (s : GeneratorState) : GeneratorState :=
  set_content (Content.mk (Content.titles (content s)) v
                 (Content.tags (content s)) (Content.status (content s))
                 (Content.error (content s))) s.
Definition set_content_tags (v : list string) (s : GeneratorState) : GeneratorState :=
  set_content (Content.mk (Content.titles (content s))
                 (Content.copywriting (content s)) v
                 (Content.status (content s)) (Content.error (content s))) s.
Definition set_content_status (v : Status.t) (s : GeneratorState) : GeneratorState :=
  set_content (Content.mk (Content.titles (content s))
                 (Content.copywriting (content s)) (Content.tags (content s))
                 v (Content.error (content s))) s.
Definition set_content_error (v : option string) (s : GeneratorState) : GeneratorState :=
  set_content (Content.mk (Content.titles (content s))
                 (Content.copywriting (content s)) (Content.tags (content s))
                 (Content.status (content s)) v) s.

(** Lines 459-462. *)
Definition startContentGeneration : Action unit :=
  modify (set_content_status Status.generating);;
  modify (set_content_error None).

(** Lines 484-514.  The function is asynchronous: it tests [this.recordId],
    and with a record id it awaits [updateHistory] with the content of the
    store and logs the answer inside its own [try]/[catch].  It assigns no
    property of the store, and [setContent] does not await it: on the world
    it is a read. *)
Definition saveContentToHistory : Action unit :=
  rid ← gets recordId;
  if negb (truthy rid) then mret () else mret ().

(** Lines 470-479. *)
Definition setContent (titles : list string) (copywriting : string)
    (tags : list string) : Action unit :=
  modify (set_content_titles titles);;
  modify (set_content_copywriting copywriting);;
  modify (set_content_tags tags);;
  modify (set_content_status Status.done);;
  modify (set_content_error None);;
  saveContentToHistory.

(** Lines 520-523. *)
Definition setContentError (error : string) : Action unit :=
  modify (set_content_status Status.error);;
  modify (set_content_error (Some error)).

(** Lines 529-536. *)
Definition clearContent : Action unit :=
  modify (set_content (Content.mk [] "" [] Status.idle None)).

(** Lines 542-544. *)
Definition setOutlineStatus (status : Status.t) : Action unit :=
  modify (set_outlineStatus status).

Section SaveTime.

(** [new Date().toISOString()] at the time [clock] of the world, as a
    function of the platform from the milliseconds to the text. *)
Variable Date_toISOString : Z → string.

(** Lines 550-563.  The parameter is a [string | null]; the test
    [typeof recordId !== 'string'] of the source cannot succeed on it. *)
Definition setRecordId (recordId : option string) : Action unit :=
  modify (set_recordId recordId);;
  match recordId with
  | Some _ =>
      now ← Date_now;
      modify (set_lastSavedAt (Some (Date_toISOString now)))
  | None => mret ()
  end.

(** Lines 569-571. *)
Definition markSaved : Action unit :=
  now ← Date_now;
  modify (set_lastSavedAt (Some (Date_toISOString now))).

End SaveTime.

(** ** The drag and drop of the outline view

    The handlers of the outline view around [store.movePage] (lines 83-84
    and 98-117 of the view).  The view keeps two references next to the
    store; the template calls the handlers with the position [idx] of a
    card in [store.outline.pages]. *)
Record DragState := mkDrag {
  dragOverIndex : option Z;
  draggedIndex : option Z
}.

(** The assignments to [e.dataTransfer] act on the event only. *)
Definition onDragStart (index : Z) (d : DragState) : Action DragState :=
  mret (mkDrag (dragOverIndex d) (Some index)).

Definition onDragOver (index : Z) (d : DragState) : Action DragState :=
  if decide (draggedIndex d = Some index) then mret d
  else mret (mkDrag (Some index) (draggedIndex d)).

(** When [movePage] raises, the last assignment is not reached; the raised
    exception leaves the view with [dragOverIndex] cleared only, which the
    thrown outcome does not carry. *)
Definition onDrop (index : Z) (d : DragState) : Action DragState :=
  let d := mkDrag None (draggedIndex d) in
  match draggedIndex d with
  | Some dragged =>
      if decide (dragged ≠ index) then movePage dragged index else mret ()
  | None => mret ()
  end;;
  mret (mkDrag (dragOverIndex d) None).

(** ** Persistence in [localStorage] *)

(** [Partial<GeneratorState>], what [loadState] returns: every property may
    be missing.  [null] and [undefined] are both [None]; the initial state
    only tests them with [||]. *)
Record Saved := mkSaved {
  saved_stage : option Stage.t;
  saved_topic : option string;
  saved_outline : option Outline.t;
  saved_progress : option Progress.t;
  saved_images : option (list Image.t);
  saved_taskId : option string;
  saved_recordId : option string;
  saved_content : option Content.t;
  saved_outlineStatus : option Status.t;
  saved_lastSavedAt : option string
}.

(** The object literal [{}]. *)
Definition empty_object : Saved :=
  mkSaved None None None None None None None None None None.

(** What [JSON.parse] can return, as far as the store reads it: [null], on
    which a property read raises; an object, read at the properties of
    [Saved]; and the other values (numbers, booleans, strings, arrays), on
    which each of these properties is [undefined]. *)
Inductive JsValue :=
| js_null
| js_object (o : Saved)
| js_other.

(** The object that [saveState] serialises. *)
Definition toSave (state : GeneratorState) : Saved :=
  mkSaved (Some (stage state)) (Some (topic state)) (Some (outline state))
    (Some (progress state)) (Some (images state)) (taskId state)
    (recordId state) (Some (content state)) (Some (outlineStatus state))
    (lastSavedAt state).

(** [x || null] on a [string | null]. *)
Definition or_null (x : option string) : option string :=
  if truthy x then x else None.

(** The object literal that [state()] returns, from the loaded object. *)
Definition state_of (saved : Saved) : GeneratorState :=
  mkState
    (default Stage.input (saved_stage saved))
    (default "" (saved_topic saved))
    (default (Outline.mk "" []) (saved_outline saved))
    (default (Progress.mk 0 0 Status.idle) (saved_progress saved))
    (default [] (saved_images saved))
    (or_null (saved_taskId saved))
    (or_null (saved_recordId saved))
    []
    (default (Content.mk [] "" [] Status.idle None) (saved_content saved))
    (default Status.idle (saved_outlineStatus saved))
    (or_null (saved_lastSavedAt saved)).

(** An outcome computed outside the world, as an action. *)
Definition lift {A} (r : Outcome A) : Action A := λ w, (r, w).

Section Persistence.

(** [JSON.parse] and [JSON.stringify] of the platform.  [JSON_parse text] is
    [Threw SyntaxError] when [text] is not valid JSON. *)
Variable JSON_parse : string → Outcome JsValue.
Variable JSON_stringify : Saved → string.

(** [loadState] (lines 87-97): the [return] inside [try] is [Some]; falling
    out of the [try] statement, normally or through [catch], is [None] and
    leads to [return {}]. *)
Definition loadState : Action JsValue :=
  early ← try_catch
    (saved ← localStorage_getItem STORAGE_KEY;
     match saved with
     | Some text =>
         if truthy saved then
           parsed ← lift (JSON_parse text);
           mret (Some parsed)
         else mret None
     | None => mret None
     end)
    (λ e, mret None);
  match early with
  | Some parsed => mret parsed
  | None => mret (js_object empty_object)
  end.

(** The [state] function of the store definition (lines 122-170). *)
Definition state : Action GeneratorState :=
  saved ← loadState;
  match saved with
  | js_null => throw TypeError
  | js_object o => mret (state_of o)
  | js_other => mret (state_of empty_object)
  end.

(** Lines 100-119 and 598-600. *)
Definition saveState (state : GeneratorState) : Action unit :=
  try_catch
    (localStorage_setItem STORAGE_KEY (JSON_stringify (toSave state)))
    (λ e, mret ()).

Definition saveToStorage : Action unit :=
  this ← gets id;
  saveState this.

End Persistence.

(** ** Sequences of page operations *)

Inductive PageOp :=
| op_addPage (type : PageType.t) (content : option string)
| op_insertPage (afterIndex : Z) (type : PageType.t) (content : option string)
| op_deletePage (index : Z)
| op_movePage (fromIndex toIndex : Z).

Definition run_op (op : PageOp) : Action unit :=
  match op with
  | op_addPage type content => addPage type content
  | op_insertPage afterIndex type content => insertPage afterIndex type content
  | op_deletePage index => deletePage index
  | op_movePage fromIndex toIndex => movePage fromIndex toIndex
  end.

(** The worlds after each operation of a sequence, in order.  An operation
    that throws leaves its world to the next one. *)
Fixpoint run_ops (ops : list PageOp) (w : World) : list World :=
  match ops with
  | [] => []
  | op :: rest => let w' := exec (run_op op) w in w' :: run_ops rest w'
  end.

(** [pages[i].index === i] at every position. *)
Definition indexed (ps : list Page.t) : Prop :=
  ∀ (i : nat) (p : Page.t), ps !! i = Some p → Page.index p = Z.of_nat i.

(** [raw] is the pages' contents joined by the separator. *)
Definition raw_synced (s : GeneratorState) : Prop :=
  raw s = join PAGE_SEPARATOR (Page.content <$> pages s).

(** The world with the outline [{ raw, pages }], the rest as in [w]. *)
Definition put_outline (r : string) (ps : list Page.t) (w : World) : World :=
  mkWorld (set_outline (Outline.mk r ps) (store w)) (localStorage w) (clock w).

(** The world with the pages [ps] and the raw text derived from them. *)
Definition put_pages (ps : list Page.t) (w : World) : World :=
  put_outline (join PAGE_SEPARATOR (Page.content <$> ps)) ps w.

(** The zero state of [reset] and of a start without a snapshot. *)
Definition zero_state : GeneratorState :=
  mkState Stage.input "" (Outline.mk "" []) (Progress.mk 0 0 Status.idle)
    [] None None [] (Content.mk [] "" [] Status.idle None) Status.idle None.

(** The snapshot that [loadState] can read back, if any. *)
Definition readable_snapshot (ls : LocalStorage) : option string :=
  match ls with
  | storage_denied => None
  | storage_items items => items !! STORAGE_KEY
  end.

(** ** Repeated calls and example worlds *)

(** The clock moves between two calls of an action. *)
Definition set_clock (t : Z) : Action unit :=
  λ w, (Returned (), mkWorld (store w) (localStorage w) t).

(** [updateImage(index, newUrl)] called once per element of [calls], each at
    its own time. *)
Fixpoint updateImage_calls (index : Z) (calls : list (Z * string)) : Action unit :=
  match calls with
  | [] => mret ()
  | (t, newUrl) :: rest =>
      set_clock t;; updateImage index newUrl;; updateImage_calls index rest
  end.

(** [recordId] or [lastSavedAt] counts as unset when the code's test
    [!x] succeeds: [null], or the empty string. *)
Definition is_unset (x : option string) : Prop := x = None ∨ x = Some "".

(** A stand-in for [JSON.parse] that is exact on the texts of the examples
    below: ["{}"], ["null"] and ["{oops"]. *)
Definition parse_literals (text : string) : Outcome JsValue :=
  if String.eqb text "{}" then Returned (js_object empty_object)
  else if String.eqb text "null" then Returned js_null
  else Threw SyntaxError.

Definition demo_pages : list Page.t :=
  [Page.mk 0 PageType.cover "A"; Page.mk 1 PageType.content "B";
   Page.mk 2 PageType.summary "C"].

(** A session without a snapshot, right after the store was created. *)
Definition fresh_world : World :=
  mkWorld zero_state (storage_items ∅) 1700000000000.

(** The same session after [setOutline] stored a response whose raw text
    is not the joined pages. *)
Definition outline_world : World :=
  exec (setOutline "# A three page outline" demo_pages) fresh_world.

Definition generating_world : World := exec startGeneration outline_world.

(** Page 1 failed with an error, page 0 is done. *)
Definition failed_world : World :=
  exec (updateProgress 0 UpdateStatus.done (Some "/img/0.png") None;;
        updateProgress 1 UpdateStatus.error None (Some "timeout"))
    generating_world.

(** The generation was closed with page 1 still failed. *)
Definition result_world : World :=
  exec (finishGeneration "task-1") failed_world.

(** A drag to the end, a deletion, an insertion after the first page, an
    appended page, and a move from a position that does not exist. *)
Definition demo_ops : list PageOp :=
  [op_movePage 0 2; op_deletePage 1; op_insertPage 0 PageType.content None;
   op_addPage PageType.summary (Some "D"); op_movePage 9 0].

(** A page load that finds a truncated snapshot, next to the entry of
    another feature. *)
Definition corrupt_world : World :=
  mkWorld zero_state
    (storage_items (<[STORAGE_KEY := "{oops"]> {["theme" := "dark"]}))
    1700000000000.

(** ** Sequences of calls during a generation and of the content flow *)

(** What a page is apart from its number. *)
Definition strip (p : Page.t) : PageType.t * string :=
  (Page.type p, Page.content p).

(** The calls that report on one image; [updateImage] reads the clock, so
    the call carries the time at which it is made. *)
Inductive ImageOp :=
| op_updateProgress (index : Z) (status : UpdateStatus.t)
    (url error : option string)
| op_updateImageProgress (index : Z) (progress : Z)
| op_updateImage (time : Z) (index : Z) (newUrl : string)
| op_setImageRetrying (index : Z).

Definition run_image_op (op : ImageOp) : Action unit :=
  match op with
  | op_updateProgress index status url error =>
      updateProgress index status url error
  | op_updateImageProgress index progress => updateImageProgress index progress
  | op_updateImage time index newUrl => set_clock time;; updateImage index newUrl
  | op_setImageRetrying index => setImageRetrying index
  end.

(** The world after a sequence of calls. *)
Definition exec_image_ops (ops : list ImageOp) (w : World) : World :=
  foldl (λ w op, exec (run_image_op op) w) w ops.

(** The number of [updateProgress(_, 'done', ...)] calls of a sequence. *)
Fixpoint done_calls (ops : list ImageOp) : Z :=
  match ops with
  | [] => 0
  | op_updateProgress _ UpdateStatus.done _ _ :: rest => 1 + done_calls rest
  | _ :: rest => done_calls rest
  end.

Inductive ContentOp :=
| op_startContentGeneration
| op_setContent (titles : list string) (copywriting : string) (tags : list string)
| op_setContentError (error : string)
| op_clearContent.

Definition run_content_op (op : ContentOp) : Action unit :=
  match op with
  | op_startContentGeneration => startContentGeneration
  | op_setContent titles copywriting tags => setContent titles copywriting tags
  | op_setContentError error => setContentError error
  | op_clearContent => clearContent
  end.

Definition exec_content_ops (ops : list ContentOp) (w : World) : World :=
  foldl (λ w op, exec (run_content_op op) w) w ops.

(** The part of the store that the calls reporting on an image leave
    alone: everything but [images] and [progress.current]. *)
Definition outside_images (s : GeneratorState) :=
  (stage s, topic s, outline s, Progress.total (progress s),
   Progress.status (progress s), taskId s, recordId s, userImages s,
   content s, outlineStatus s, lastSavedAt s).

(** The part of the store outside [outline]. *)
Definition outside_outline (s : GeneratorState) :=
  (stage s, topic s, progress s, images s, taskId s, recordId s,
   userImages s, content s, outlineStatus s, lastSavedAt s).

(** The part of the store outside [content]. *)
Definition outside_content (s : GeneratorState) :=
  (stage s, topic s, outline s, progress s, images s, taskId s, recordId s,
   userImages s, outlineStatus s, lastSavedAt s).

(** A generation in which every page succeeds: one
    [updateProgress(page.index, 'done', url)] per page, in page order. *)
Definition complete_pages (url : Z → string) (ps : list Page.t) : list ImageOp :=
  (λ page, op_updateProgress (Page.index page) UpdateStatus.done
             (Some (url (Page.index page))) None) <$> ps.

(** The image that [startGeneration] creates for a page, and the image of
    a page whose generation succeeded with the url [url page.index]. *)
Definition fresh_image (p : Page.t) : Image.t :=
  Image.mk (Page.index p) "" ImageStatus.generating None None None.
Definition done_image (url : Z → string) (p : Page.t) : Image.t :=
  Image.mk (Page.index p) (url (Page.index p)) ImageStatus.done None None None.

(** The content carries an error message exactly in the status ['error']. *)
Definition content_consistent (s : GeneratorState) : Prop :=
  Content.status (content s) = Status.error ↔ is_Some (Content.error (content s)).

(** The outline of [outline_world] after an edit of its second page: the
    raw text is derived from the pages. *)
Definition edited_world : World := exec (updatePage 1 "B2") outline_world.

(** A stand-in for [toISOString] that is exact at the clock of the example
    worlds, 1700000000000 ms. *)
Definition iso_of_example_clock (t : Z) : string := "2023-11-14T22:13:20.000Z".

(** Stand-ins for [JSON.stringify] and [JSON.parse] on the snapshot of
    [result_world]: one text stands for the serialised object, and only
    that text parses. *)
Definition stringify_result_world (o : Saved) : string := "{result_world}".
Definition parse_result_world (text : string) : Outcome JsValue :=
  if String.eqb text "{result_world}"
  then Returned (js_object (toSave (store result_world)))
  else Threw SyntaxError.

(** The url that the examples give to the image of a page. *)
Definition demo_url (index : Z) : string :=
  "/img/" +:+ Number_toString index +:+ ".png".

(** ** The auto-save watcher

    A session of the application around the store: whether
    [setupAutoSave()] (lines 611-633) has installed its watcher, and whether
    the callback of the watcher waits in the scheduler.  The watcher is deep
    and its callback is flushed after the running code: a change of the
    store queues the callback, and the callback runs
    [store.saveToStorage()] once the code that changed the store has
    returned. *)
Record Session := mkSession {
  world : World;
  autoSave : bool;
  saveQueued : bool
}.

Definition setupAutoSave (a : Session) : Session :=
  mkSession (world a) true (saveQueued a).

(** [store.reset()] in a session.  [reset] assigns fresh objects to
    [outline], [progress] and [content], so it changes the source of the
    watcher whatever the store held, also when [removeItem] raises at its
    end. *)
Definition session_reset (a : Session) : Outcome unit * Session :=
  let '(r, w) := run reset (world a) in
  (r, mkSession w (autoSave a) (saveQueued a || autoSave a)).

(** The scheduler runs the queued callback of the watcher. *)
Definition flush_watcher (JSON_stringify : Saved → string) (a : Session)
  : Session :=
  if saveQueued a
  then mkSession (exec (saveToStorage JSON_stringify) (world a)) (autoSave a)
         false
  else a.

Definition storage_available (ls : LocalStorage) : bool :=
  match ls with
  | storage_denied => false
  | storage_items _ => true
  end.

(** The text of [JSON.stringify] for the snapshot of the zero state. *)
Definition DQ : string := String (Ascii.ascii_of_nat 34) EmptyString.
Definition quoted (s : string) : string := DQ +:+ s +:+ DQ.
Definition zero_state_json : string :=
  "{" +:+ quoted "stage" +:+ ":" +:+ quoted "input" +:+ ","
  +:+ quoted "topic" +:+ ":" +:+ quoted "" +:+ ","
  +:+ quoted "outline" +:+ ":{" +:+ quoted "raw" +:+ ":" +:+ quoted "" +:+ ","
  +:+ quoted "pages" +:+ ":[]},"
  +:+ quoted "progress" +:+ ":{" +:+ quoted "current" +:+ ":0,"
  +:+ quoted "total" +:+ ":0," +:+ quoted "status" +:+ ":" +:+ quoted "idle"
  +:+ "},"
  +:+ quoted "images" +:+ ":[],"
  +:+ quoted "taskId" +:+ ":null," +:+ quoted "recordId" +:+ ":null,"
  +:+ quoted "content" +:+ ":{" +:+ quoted "titles" +:+ ":[],"
  +:+ quoted "copywriting" +:+ ":" +:+ quoted "" +:+ ","
  +:+ quoted "tags" +:+ ":[]," +:+ quoted "status" +:+ ":" +:+ quoted "idle"
  +:+ "},"
  +:+ quoted "outlineStatus" +:+ ":" +:+ quoted "idle" +:+ ","
  +:+ quoted "lastSavedAt" +:+ ":null}".

(** Stand-ins for [JSON.stringify] and [JSON.parse] that are exact on the
    snapshot of the zero state and on its text. *)
Definition stringify_zero_state (o : Saved) : string := zero_state_json.
Definition parse_zero_state (text : string) : Outcome JsValue :=
  if String.eqb text zero_state_json
  then Returned (js_object (toSave zero_state))
  else Threw SyntaxError.

(** The session of [result_world] with the watcher installed. *)
Definition watched_session : Session :=
  setupAutoSave (mkSession result_world false false).

(** * Properties *)

Ltac eval_action :=
  unfold exec, run, mbind, mret, action_bind, action_ret, bind, ret, throw,
    try_catch, lift, gets, modify, Date_now, set_clock, localStorage_getItem,
    localStorage_setItem, localStorage_removeItem; cbn.

(** Case analysis on the result of the [find] in the goal. *)
Ltac case_find k img :=
  match goal with
  | |- context [@find ?A ?P ?D ?l] =>
      destruct (@find A P D l) as [[k img]|] eqn:?
  end.

Example Number_toString_examples :
  Number_toString 1700000000123 = "1700000000123" ∧
  Number_toString (-5) = "-5" ∧ Number_toString 0 = "0".
Proof. repeat split; reflexivity. Qed.

Example splice_examples :
  splice 1 1 [9%nat] [1; 2; 3]%nat = ([2%nat], [1; 9; 3]%nat) ∧
  splice (-1) 1 [] [1; 2; 3]%nat = ([3%nat], [1; 2]%nat) ∧
  splice 7 1 [] [1; 2; 3]%nat = ([], [1; 2; 3]%nat) ∧
  splice (-7) 0 [9%nat] [1; 2; 3]%nat = ([], [9; 1; 2; 3]%nat).
Proof. repeat split; reflexivity. Qed.

(** The scenario of the drag-and-drop view: moving the first of three pages
    to the end. *)
Example movePage_first_to_last :
  Outline.pages (outline (store (exec (movePage 0 2) outline_world))) =
    [Page.mk 0 PageType.content "B"; Page.mk 1 PageType.summary "C";
     Page.mk 2 PageType.cover "A"] ∧
  raw (store (exec (movePage 0 2) outline_world)) =
    "B" +:+ PAGE_SEPARATOR +:+ "C" +:+ PAGE_SEPARATOR +:+ "A".
Proof. split; reflexivity. Qed.

(** Deleting the middle page of three renumbers the last one. *)
Example deletePage_middle :
  pages (store (exec (deletePage 1) outline_world)) =
    [Page.mk 0 PageType.cover "A"; Page.mk 1 PageType.summary "C"] ∧
  raw (store (exec (deletePage 1) outline_world)) =
    "A" +:+ PAGE_SEPARATOR +:+ "C".
Proof. split; reflexivity. Qed.

(** [movePage] from a position after the last page raises and keeps the
    outline. *)
Example movePage_out_of_range :
  run (movePage 3 0) outline_world = (Threw TypeError, outline_world).
Proof. reflexivity. Qed.

(** ** Progress counting *)

(** C1, as stated, fails: with image 0 of a running generation, two
    [updateProgress(0, 'done')] calls raise [progress.current] from 0 to 2;
    and one more call on the image that is already done raises it again. *)
Lemma updateProgress_done_twice_counts_twice :
  current (store generating_world) = 0 ∧
  current (store (exec (updateProgress 0 UpdateStatus.done (Some "/img/0.png") None;;
                        updateProgress 0 UpdateStatus.done (Some "/img/0.png") None)
                    generating_world)) = 2 ∧
  (∃ img, images (store failed_world) !! 0%nat = Some img ∧
          Image.status img = ImageStatus.done) ∧
  current (store (exec (updateProgress 0 UpdateStatus.done None None) failed_world))
    ≠ current (store failed_world).
Proof.
  split; [reflexivity|]. split; [reflexivity|]. split.
  - eexists. split; reflexivity.
  - vm_compute. discriminate.
Qed.

(** C1, amended: every [updateProgress(i, 'done', ...)] adds exactly 1 to
    [progress.current], whether an image with index [i] exists or not and
    whatever its status was, so two such calls add 2; a call with
    ['generating'] or ['error'] leaves the counter as it is. *)
Theorem updateProgress_counts_every_done_call (w : World) (i : Z)
    (status : UpdateStatus.t) (url err url' err' : option string) :
  current (store (exec (updateProgress i status url err) w)) =
    (match status with
     | UpdateStatus.done => current (store w) + 1
     | _ => current (store w)
     end) ∧
  current (store (exec (updateProgress i UpdateStatus.done url err;;
                        updateProgress i UpdateStatus.done url' err') w)) =
    current (store w) + 2.
Proof.
  destruct w as [s ls c]. split.
  - unfold updateProgress. eval_action.
    case_find k img; destruct status; reflexivity.
  - unfold updateProgress. eval_action.
    case_find k img; cbn; case_find k' img'; cbn; unfold current; cbn; lia.
Qed.

(** ** The outline *)

(** C4, as stated, fails: in the result stage, [setOutline] called with the
    raw text and the pages that the outline already holds sends the workflow
    back to the outline stage. *)
Lemma equal_outline_still_changes_stage :
  stage (store result_world) = Stage.result ∧
  stage (store (exec (setOutline (raw (store result_world))
                        (pages (store result_world))) result_world))
    = Stage.outline ∧
  exec (setOutline (raw (store result_world)) (pages (store result_world)))
    result_world ≠ result_world.
Proof.
  split; [reflexivity|]. split; [reflexivity|].
  intros H. apply (f_equal (λ w, stage (store w))) in H. discriminate H.
Qed.

(** C4, amended: when the outline already equals the arguments,
    [setOutline(raw, pages)] leaves the outline and every other field as they
    are except [stage] and [outlineStatus], which it sets to ['outline'] and
    ['done'] all the same; the call changes nothing exactly when the state
    already had these two values. *)
Theorem setOutline_equal_outline (w : World) (r : string) (ps : list Page.t) :
  raw (store w) = r → pages (store w) = ps →
  run (setOutline r ps) w =
    (Returned (),
     mkWorld (set_outlineStatus Status.done (set_stage Stage.outline (store w)))
       (localStorage w) (clock w)) ∧
  (exec (setOutline r ps) w = w ↔
   stage (store w) = Stage.outline ∧ outlineStatus (store w) = Status.done).
Proof.
  intros <- <-. destruct w as [[st tp [r ps] pr im ti ri ui ct os la] ls c].
  unfold setOutline. eval_action. split; [reflexivity|].
  split.
  - intros H. injection H as -> ->. done.
  - intros [-> ->]. reflexivity.
Qed.

Lemma setOutline_equal_outline_witness :
  run (setOutline (raw (store result_world)) (pages (store result_world)))
      result_world =
    (Returned (),
     mkWorld (set_outlineStatus Status.done
                (set_stage Stage.outline (store result_world)))
       (localStorage result_world) (clock result_world)) ∧
  (exec (setOutline (raw (store result_world)) (pages (store result_world)))
     result_world = result_world ↔
   stage (store result_world) = Stage.outline ∧
   outlineStatus (store result_world) = Status.done).
Proof.
  apply (setOutline_equal_outline result_world); reflexivity.
Defined.

(** ** Starting a generation *)

(** C5: [startGeneration()] returns, sets the stage to ['generating'] and the
    progress to [{0, pages.length, 'generating'}], and replaces [images] by
    one entry per page, in page order, that carries the page's index, the
    status ['generating'], the url [''] and no error (nor [retryable] nor
    [progress]); the outline is untouched. *)
Theorem startGeneration_initialises (w : World) :
  let s' := store (exec startGeneration w) in
  (run startGeneration w).1 = Returned () ∧
  stage s' = Stage.generating ∧
  progress s' =
    Progress.mk 0 (Z.of_nat (length (pages (store w)))) Status.generating ∧
  length (images s') = length (pages (store w)) ∧
  (∀ i : nat,
     images s' !! i =
       (λ p, Image.mk (Page.index p) "" ImageStatus.generating None None None)
         <$> pages (store w) !! i) ∧
  Forall (λ img, Image.status img = ImageStatus.generating ∧
                 Image.url img = "" ∧ Image.error img = None) (images s') ∧
  outline s' = outline (store w).
Proof.
  destruct w as [s ls c]. unfold startGeneration. eval_action.
  repeat split; try reflexivity.
  - unfold pages. apply length_fmap.
  - intros i. unfold pages. apply list_lookup_fmap.
  - apply Forall_fmap, Forall_true. done.
Qed.

(** ** Reset *)

(** [reset()] at its return, before any watcher runs: the store holds the
    zero state, the entry under the storage key is removed and the other
    entries are kept (or storage is denied, and [removeItem] raises after
    the fields were cleared), and a store created from that world, with any
    [JSON.parse], starts from the zero state. *)
Theorem reset_zero_state (w : World) :
  store (exec reset w) = zero_state ∧
  readable_snapshot (localStorage (exec reset w)) = None ∧
  run reset w =
    match localStorage w with
    | storage_items items =>
        (Returned (),
         mkWorld zero_state (storage_items (delete STORAGE_KEY items)) (clock w))
    | storage_denied =>
        (Threw SecurityError, mkWorld zero_state storage_denied (clock w))
    end ∧
  ∀ JSON_parse, (run (state JSON_parse) (exec reset w)).1 = Returned zero_state.
Proof.
  destruct w as [s [|items] c].
  - split_and!; reflexivity.
  - assert (run reset (mkWorld s (storage_items items) c) =
            (Returned (),
             mkWorld zero_state (storage_items (delete STORAGE_KEY items)) c))
      as Hrun by reflexivity.
    unfold exec. rewrite Hrun. cbn [snd store localStorage clock].
    split_and!; [reflexivity| |reflexivity|].
    + cbn. apply lookup_delete_eq.
    + intros JSON_parse. unfold state, loadState. eval_action.
      by rewrite lookup_delete_eq.
Qed.

(** ** Reset under the auto-save watcher *)

Lemma session_reset_run (a : Session) :
  session_reset a =
    match localStorage (world a) with
    | storage_items items =>
        (Returned (),
         mkSession
           (mkWorld zero_state (storage_items (delete STORAGE_KEY items))
              (clock (world a)))
           (autoSave a) (saveQueued a || autoSave a))
    | storage_denied =>
        (Threw SecurityError,
         mkSession (mkWorld zero_state storage_denied (clock (world a)))
           (autoSave a) (saveQueued a || autoSave a))
    end.
Proof. by destruct a as [[s [|items] c] auto queued]. Qed.

(** C7, as stated, fails for the code it cites: in the session of
    [result_world] with the watcher of [setupAutoSave()] installed,
    [reset()] returns normally, and once the queued callback of the watcher
    has run the store holds the zero state but a snapshot is readable under
    the storage key again, the text of the zero state. *)
Lemma snapshot_back_after_reset :
  (session_reset watched_session).1 = Returned () ∧
  store (world (flush_watcher stringify_zero_state
                  (session_reset watched_session).2)) = zero_state ∧
  readable_snapshot
    (localStorage (world (flush_watcher stringify_zero_state
                            (session_reset watched_session).2))) =
    Some zero_state_json.
Proof. split_and!; reflexivity. Qed.

(** C7, amended: from every state of the store and of the session,
    [reset()] leaves exactly the zero state in the store, and at its return
    no snapshot is readable under the storage key.  The store still holds
    the zero state after the callback of the auto-save watcher has run, and
    the snapshot readable then is the serialised zero state when the watcher
    is installed (or its callback already waited) and storage is available,
    and none otherwise.  In either case a store created afterwards starts
    from the zero state, provided [JSON.parse] gives back the snapshot of
    the zero state from its text. *)
Theorem reset_under_autosave (JSON_stringify : Saved → string) (a : Session) :
  let a1 := (session_reset a).2 in
  let a2 := flush_watcher JSON_stringify a1 in
  store (world a1) = zero_state ∧
  readable_snapshot (localStorage (world a1)) = None ∧
  store (world a2) = zero_state ∧
  readable_snapshot (localStorage (world a2)) =
    (if (saveQueued a || autoSave a) &&
        storage_available (localStorage (world a))
     then Some (JSON_stringify (toSave zero_state))
     else None) ∧
  ∀ JSON_parse,
    JSON_parse (JSON_stringify (toSave zero_state)) =
      Returned (js_object (toSave zero_state)) →
    (run (state JSON_parse) (world a2)).1 = Returned zero_state.
Proof.
  cbn zeta. rewrite session_reset_run.
  destruct a as [[s [|items] c] auto queued];
    cbn [world localStorage clock snd autoSave saveQueued storage_available];
    unfold flush_watcher; cbn [saveQueued world autoSave];
    destruct (queued || auto); cbn [andb].
  - by split_and!.
  - by split_and!.
  - assert (exec (saveToStorage JSON_stringify)
              (mkWorld zero_state (storage_items (delete STORAGE_KEY items)) c) =
            mkWorld zero_state
              (storage_items
                 (<[STORAGE_KEY := JSON_stringify (toSave zero_state)]>
                    (delete STORAGE_KEY items))) c) as -> by reflexivity.
    cbn [world store localStorage readable_snapshot].
    split_and!; [reflexivity|apply lookup_delete_eq|reflexivity|
                 apply lookup_insert_eq|].
    intros JSON_parse Hparse. unfold state, loadState. eval_action.
    rewrite lookup_insert_eq. cbn.
    destruct (truthy_string (JSON_stringify (toSave zero_state)));
      [|reflexivity].
    by rewrite Hparse.
  - cbn [world store localStorage readable_snapshot].
    split_and!; [reflexivity|apply lookup_delete_eq|reflexivity|
                 apply lookup_delete_eq|].
    intros JSON_parse _. unfold state, loadState. eval_action.
    by rewrite lookup_delete_eq.
Qed.

Lemma reset_under_autosave_witness :
  parse_zero_state (stringify_zero_state (toSave zero_state)) =
    Returned (js_object (toSave zero_state)) ∧
  (run (state parse_zero_state)
     (world (flush_watcher stringify_zero_state
               (session_reset watched_session).2))).1 = Returned zero_state.
Proof.
  split; [reflexivity|].
  apply (reset_under_autosave stringify_zero_state watched_session).
  reflexivity.
Defined.

(** ** Unsaved changes *)

Lemma truthy_string_true (t : string) : truthy_string t = true ↔ t ≠ "".
Proof.
  unfold truthy_string. rewrite negb_true_iff.
  destruct (String.eqb_spec t ""); naive_solver.
Qed.

Lemma truthy_false (x : option string) : truthy x = false ↔ is_unset x.
Proof.
  unfold is_unset. destruct x as [t|]; cbn; [|naive_solver].
  rewrite <- not_true_iff_false, truthy_string_true. split.
  - intros H. right. destruct (decide (t = "")) as [->|]; [done|]. by destruct H.
  - intros [|[= ->]]; [done|]. by intros [].
Qed.

(** For values that are [null] or a non-empty string, unset is [null]. *)
Lemma is_unset_null (x : option string) : x ≠ Some "" → is_unset x ↔ x = None.
Proof. unfold is_unset. tauto. Qed.

Lemma nonempty_length {A} (l : list A) :
  match length l with 0%nat => false | S _ => true end = true ↔ l ≠ [].
Proof. destruct l; cbn; split; congruence. Qed.

(** C9: [hasUnsavedChanges()] returns, leaves the world as it was, and its
    result is [true] exactly when [recordId] is unset and one of [topic],
    [outline.pages], [images] is not empty, or [recordId] is set and
    [lastSavedAt] is unset.  Unset is the code's test [!x]. *)
Theorem hasUnsavedChanges_spec (w : World) :
  ∃ b : bool,
    run hasUnsavedChanges w = (Returned b, w) ∧
    (b = true ↔
     (is_unset (recordId (store w)) ∧
      (topic (store w) ≠ "" ∨ pages (store w) ≠ [] ∨ images (store w) ≠ []))
     ∨ (¬ is_unset (recordId (store w)) ∧ is_unset (lastSavedAt (store w)))).
Proof.
  destruct w as [s ls c]. unfold hasUnsavedChanges. eval_action.
  pose proof (truthy_false (recordId s)) as Hrid.
  pose proof (truthy_false (lastSavedAt s)) as Hsaved.
  destruct (truthy (recordId s)); cbn.
  - assert (¬ is_unset (recordId s)) by (rewrite <- Hrid; discriminate).
    destruct (truthy (lastSavedAt s)); cbn;
      eexists; (split; [reflexivity|]).
    + assert (¬ is_unset (lastSavedAt s)) by (rewrite <- Hsaved; discriminate).
      split; [discriminate|tauto].
    + tauto.
  - eexists. split; [reflexivity|].
    rewrite !orb_true_iff, truthy_string_true, !nonempty_length. tauto.
Qed.

(** ** Updates of one image *)

(** [find] on an array whose first match is known. *)
Lemma find_first {A} (P : A → Prop) `{∀ x, Decision (P x)}
    (before after : list A) (x : A) :
  Forall (λ y, ¬ P y) before → P x →
  find P (before ++ x :: after) = Some (length before, x).
Proof.
  intros Hbefore Hx. unfold find.
  induction Hbefore as [|y before Hy _ IH]; cbn.
  - by rewrite decide_True.
  - rewrite decide_False by done. by rewrite IH.
Qed.

Lemma find_none {A} (P : A → Prop) `{∀ x, Decision (P x)} (l : list A) :
  Forall (λ y, ¬ P y) l → find P l = None.
Proof. intros Hl. by apply list_find_None. Qed.

Lemma insert_first_match {A} (before after : list A) (x y : A) :
  <[length before := y]> (before ++ x :: after) = before ++ y :: after.
Proof.
  replace (length before) with (length before + 0)%nat by lia.
  by rewrite insert_app_r.
Qed.

(** C10: [setImageRetrying(index)] sets the status of the first image that
    carries [index] to ['retrying'], whatever its status was, and keeps that
    image's index, url, error, retryable and progress, the other images and
    every other part of the world; without such an image it changes
    nothing. *)
Theorem setImageRetrying_frame (w : World) (index : Z) :
  (∀ before img after,
     images (store w) = before ++ img :: after →
     Forall (λ i, Image.index i ≠ index) before →
     Image.index img = index →
     run (setImageRetrying index) w =
       (Returned (),
        mkWorld
          (set_images
             (before ++
              Image.mk (Image.index img) (Image.url img) ImageStatus.retrying
                (Image.error img) (Image.retryable img) (Image.progress img)
              :: after)
             (store w))
          (localStorage w) (clock w))) ∧
  (Forall (λ i, Image.index i ≠ index) (images (store w)) →
   run (setImageRetrying index) w = (Returned (), w)).
Proof.
  destruct w as [s ls c]. unfold setImageRetrying. eval_action. split.
  - intros before img after -> Hbefore Himg.
    rewrite (find_first _ before after img Hbefore Himg).
    by rewrite insert_first_match.
  - intros Hnone. by rewrite (find_none _ _ Hnone).
Qed.

Lemma setImageRetrying_frame_witness :
  run (setImageRetrying 0) failed_world =
    (Returned (),
     mkWorld
       (set_images
          [Image.mk 0 "/img/0.png" ImageStatus.retrying None None None;
           Image.mk 1 "" ImageStatus.error (Some "timeout") None None;
           Image.mk 2 "" ImageStatus.generating None None None]
          (store failed_world))
       (localStorage failed_world) (clock failed_world)) ∧
  run (setImageRetrying 7) failed_world = (Returned (), failed_world).
Proof.
  split.
  - apply (proj1 (setImageRetrying_frame failed_world 0) []
             (Image.mk 0 "/img/0.png" ImageStatus.done None None None)
             [Image.mk 1 "" ImageStatus.error (Some "timeout") None None;
              Image.mk 2 "" ImageStatus.generating None None None]).
    + reflexivity.
    + constructor.
    + reflexivity.
  - apply (proj2 (setImageRetrying_frame failed_world 7)).
    repeat constructor; cbn; lia.
Defined.

(** Sequencing after an action that returns. *)
Lemma exec_bind {A B} (m : Action A) (k : A → Action B) (w : World) (a : A) :
  (run m w).1 = Returned a → exec (m ≫= k) w = exec (k a) (exec m w).
Proof.
  unfold exec, run, mbind, action_bind, bind.
  destruct (m w) as [[a'|e] w']; cbn; [|discriminate].
  by intros [= ->].
Qed.

Lemma updateImage_keeps_progress (w : World) (index : Z) (newUrl : string) :
  (run (updateImage index newUrl) w).1 = Returned () ∧
  progress (store (exec (updateImage index newUrl) w)) = progress (store w).
Proof.
  destruct w as [s ls c]. unfold updateImage. eval_action.
  case_find k img; cbn; done.
Qed.

(** C6: [updateImage(index, newUrl)] sets the first image that carries
    [index] to status ['done'], its url to [newUrl] followed by [?t=] and
    the current time in milliseconds, and removes its error; nothing else
    changes.  It never touches [progress.current]: after any number of calls
    for the same index, at any times, the progress is what it was, so these
    calls add no increment at all. *)
Theorem updateImage_done_without_count (w : World) (index : Z) (newUrl : string) :
  (∀ before img after,
     images (store w) = before ++ img :: after →
     Forall (λ i, Image.index i ≠ index) before →
     Image.index img = index →
     run (updateImage index newUrl) w =
       (Returned (),
        mkWorld
          (set_images
             (before ++
              Image.mk (Image.index img)
                (newUrl +:+ "?t=" +:+ Number_toString (clock w))
                ImageStatus.done None (Image.retryable img) (Image.progress img)
              :: after)
             (store w))
          (localStorage w) (clock w))) ∧
  (∀ calls : list (Z * string),
     progress (store (exec (updateImage_calls index calls) w)) =
       progress (store w)).
Proof.
  split.
  - destruct w as [s ls c]. unfold updateImage. eval_action.
    intros before img after -> Hbefore Himg.
    rewrite (find_first _ before after img Hbefore Himg). cbn.
    by rewrite insert_first_match.
  - intros calls. revert w.
    induction calls as [|[t url] calls IH]; intros w; [reflexivity|].
    cbn [updateImage_calls].
    rewrite (exec_bind (set_clock t) _ w ()) by reflexivity.
    destruct (updateImage_keeps_progress (exec (set_clock t) w) index url)
      as [Hret Hprogress].
    rewrite (exec_bind (updateImage index url) _ _ () Hret).
    by rewrite IH, Hprogress.
Qed.

Lemma updateImage_done_without_count_witness :
  run (updateImage 1 "/img/1.png") failed_world =
    (Returned (),
     mkWorld
       (set_images
          [Image.mk 0 "/img/0.png" ImageStatus.done None None None;
           Image.mk 1 "/img/1.png?t=1700000000000" ImageStatus.done None None None;
           Image.mk 2 "" ImageStatus.generating None None None]
          (store failed_world))
       (localStorage failed_world) (clock failed_world)) ∧
  current (store (exec (updateImage_calls 1
             [(1700000000001, "/img/1.png"); (1700000000002, "/img/1.png")])
           failed_world)) = 1.
Proof.
  split.
  - apply (proj1 (updateImage_done_without_count failed_world 1 "/img/1.png")
             [Image.mk 0 "/img/0.png" ImageStatus.done None None None]
             (Image.mk 1 "" ImageStatus.error (Some "timeout") None None)
             [Image.mk 2 "" ImageStatus.generating None None None]).
    + reflexivity.
    + repeat constructor; cbn; lia.
    + reflexivity.
  - unfold current.
    rewrite (proj2 (updateImage_done_without_count failed_world 1 "/img/1.png")).
    reflexivity.
Defined.

(** ** Creating the store *)

Section StoreCreation.

Variable JSON_parse : string → Outcome JsValue.

(** C8: when there is no snapshot to read under the storage key, or the
    snapshot is a text on which [JSON.parse] raises, creating the store
    returns the default state, and no exception reaches the caller; the
    world is left as it was. *)
Theorem state_defaults_without_snapshot (w : World) :
  (readable_snapshot (localStorage w) = None ∨
   ∃ text e, readable_snapshot (localStorage w) = Some text ∧
             JSON_parse text = Threw e) →
  run (state JSON_parse) w = (Returned zero_state, w).
Proof.
  destruct w as [s [|items] c]; cbn [localStorage readable_snapshot];
    unfold state, loadState; eval_action.
  - reflexivity.
  - intros [->|(text & e & -> & Hparse)]; cbn; [reflexivity|].
    destruct (truthy_string text); [|reflexivity].
    by rewrite Hparse.
Qed.

(** The same holds for a snapshot that is the empty text. *)
Lemma state_defaults_empty_snapshot (w : World) :
  readable_snapshot (localStorage w) = Some "" →
  run (state JSON_parse) w = (Returned zero_state, w).
Proof.
  destruct w as [s [|items] c]; cbn [localStorage readable_snapshot];
    [done|].
  intros Hitem. unfold state, loadState. eval_action.
  rewrite Hitem. reflexivity.
Qed.

(** A snapshot that is valid JSON is outside C8: the text [null] parses, and
    the first property read of [state()] raises outside the [try] of
    [loadState]. *)
Lemma state_null_snapshot_throws (w : World) (text : string) :
  readable_snapshot (localStorage w) = Some text → text ≠ "" →
  JSON_parse text = Returned js_null →
  run (state JSON_parse) w = (Threw TypeError, w).
Proof.
  destruct w as [s [|items] c]; cbn [localStorage readable_snapshot];
    [done|].
  intros Hitem Htext Hparse. apply truthy_string_true in Htext.
  unfold state, loadState. eval_action.
  rewrite Hitem. cbn. by rewrite Htext, Hparse.
Qed.

(** What the watcher of [setupAutoSave] runs after a change of the store:
    [saveToStorage()] after [reset()] writes the snapshot of the zero state
    into the emptied slot. *)
Lemma saveToStorage_after_reset (JSON_stringify : Saved → string) (w : World) :
  localStorage w ≠ storage_denied →
  readable_snapshot
    (localStorage (exec (reset;; saveToStorage JSON_stringify) w)) =
    Some (JSON_stringify (toSave zero_state)).
Proof.
  destruct w as [s [|items] c]; [done|]. intros _.
  assert (exec (reset;; saveToStorage JSON_stringify)
            (mkWorld s (storage_items items) c) =
          mkWorld zero_state
            (storage_items (<[STORAGE_KEY := JSON_stringify (toSave zero_state)]>
                              (delete STORAGE_KEY items))) c)
    as -> by reflexivity.
  cbn. apply lookup_insert_eq.
Qed.

End StoreCreation.

Lemma state_defaults_without_snapshot_witness :
  run (state parse_literals) corrupt_world = (Returned zero_state, corrupt_world)
  ∧ run (state parse_literals) fresh_world = (Returned zero_state, fresh_world).
Proof.
  split.
  - apply state_defaults_without_snapshot. right.
    exists "{oops", SyntaxError. split; reflexivity.
  - apply state_defaults_without_snapshot. left. reflexivity.
Defined.

(** ** Editing the pages *)

Lemma set_index_same (p : Page.t) (i : Z) :
  Page.index p = i → Page.set_index i p = p.
Proof. intros <-. by destruct p. Qed.

Lemma indexed_reindex (ps : list Page.t) : indexed (reindex ps).
Proof.
  intros i p. unfold reindex. rewrite list_lookup_imap.
  destruct (ps !! i); [|done]. by intros [= <-].
Qed.

(** Renumbering an array that is already numbered by position changes
    nothing. *)
Lemma reindex_indexed (ps : list Page.t) : indexed ps → reindex ps = ps.
Proof.
  intros Hps. apply list_eq. intros i. unfold reindex.
  rewrite list_lookup_imap. destruct (ps !! i) as [p|] eqn:Hp; [|done].
  cbn. f_equal. apply set_index_same. by apply Hps.
Qed.

Lemma indexed_take (ps : list Page.t) (n : nat) : indexed ps → indexed (take n ps).
Proof.
  intros Hps i p [Hi _]%lookup_take_Some. by apply Hps.
Qed.

Lemma indexed_snoc (ps : list Page.t) (p : Page.t) :
  indexed ps → Page.index p = Z.of_nat (length ps) → indexed (ps ++ [p]).
Proof.
  intros Hps Hp i q. rewrite lookup_app.
  destruct (ps !! i) as [q'|] eqn:Hq.
  - intros [= <-]. by apply Hps.
  - apply lookup_ge_None in Hq.
    destruct (i - length ps)%nat as [|n] eqn:Hn; cbn; [|done].
    intros [= <-]. rewrite Hp. f_equal. lia.
Qed.

Lemma splice_start_le (len : nat) (start : Z) :
  (splice_start len start ≤ len)%nat.
Proof. unfold splice_start. destruct (Z.ltb_spec start 0); lia. Qed.

(** [splice(start, 1)] removes an element exactly when the array is not
    empty and [start] lies before its end; a negative [start] counts back
    from the end and stops at the first element. *)
Lemma splice_start_lt (len : nat) (start : Z) :
  (splice_start len start < len)%nat ↔ (0 < len)%nat ∧ start < Z.of_nat len.
Proof. unfold splice_start. destruct (Z.ltb_spec start 0); lia. Qed.

(** *** What each operation leaves in the world *)

Lemma addPage_run (w : World) (type : PageType.t) (content : option string) :
  run (addPage type content) w =
    (Returned (),
     put_pages (pages (store w) ++
                [Page.mk (Z.of_nat (length (pages (store w)))) type
                   (default "" content)]) w).
Proof. destruct w as [s ls c]. reflexivity. Qed.

Lemma deletePage_run (w : World) (index : Z) :
  run (deletePage index) w =
    (Returned (),
     put_pages (reindex (filter (λ p, Page.index p ≠ index) (pages (store w)))) w).
Proof. destruct w as [s ls c]. reflexivity. Qed.

Lemma insertPage_run (w : World) (afterIndex : Z) (type : PageType.t)
    (content : option string) :
  let ps := pages (store w) in
  let k := splice_start (length ps) (afterIndex + 1) in
  run (insertPage afterIndex type content) w =
    (Returned (),
     put_pages (reindex (take k ps ++
                         Page.mk (afterIndex + 1) type (default "" content)
                         :: drop k ps)) w).
Proof.
  destruct w as [s ls c]. cbn. unfold insertPage. eval_action.
  unfold splice. cbn. by rewrite Nat.add_0_r.
Qed.

Lemma updatePage_run (w : World) (index : Z) (content : string) :
  run (updatePage index content) w =
    match find (λ p, Page.index p = index) (pages (store w)) with
    | Some (k, page) =>
        (Returned (),
         put_pages (<[k := Page.set_content content page]> (pages (store w))) w)
    | None => (Returned (), w)
    end.
Proof.
  destruct w as [s ls c]. unfold updatePage. eval_action.
  case_find k page; reflexivity.
Qed.

Lemma imap_shift (k : nat) (ps : list Page.t) :
  imap (λ i, Page.set_index (Z.of_nat (S k + i))) ps =
  imap ((λ i, Page.set_index (Z.of_nat (k + i))) ∘ S) ps.
Proof. apply imap_ext. intros i q _. cbn. do 2 f_equal. lia. Qed.

(** [forEach] on an array without [undefined] renumbers all of it. *)
Lemma reindex_from_defined (k : nat) (ps : list Page.t) :
  reindex_from k (Some <$> ps) =
    (Some <$> imap (λ i, Page.set_index (Z.of_nat (k + i))) ps, None).
Proof.
  revert k. induction ps as [|p ps IH]; intros k; [reflexivity|].
  cbn. rewrite IH, Nat.add_0_r, (imap_shift k). reflexivity.
Qed.

(** [forEach] stops at the first [undefined], with the pages before it
    renumbered. *)
Lemma reindex_from_undefined (k : nat) (ps : list Page.t)
    (rest : list (option Page.t)) :
  reindex_from k ((Some <$> ps) ++ None :: rest) =
    ((Some <$> imap (λ i, Page.set_index (Z.of_nat (k + i))) ps) ++ None :: rest,
     Some TypeError).
Proof.
  revert k. induction ps as [|p ps IH]; intros k; [reflexivity|].
  cbn. rewrite IH, Nat.add_0_r, (imap_shift k). reflexivity.
Qed.

Lemma omap_id_Some {A} (l : list A) : omap id (Some <$> l) = l.
Proof. induction l as [|x l IH]; [done|]. cbn. by rewrite IH. Qed.

(** [movePage(fromIndex, toIndex)]: when [fromIndex] designates a page, the
    page is moved, the pages are renumbered and the raw text is derived
    again; otherwise the call raises a [TypeError] and the store keeps its
    pages, those before the insertion point renumbered, and its raw text. *)
Lemma movePage_run (w : World) (fromIndex toIndex : Z) :
  let ps := pages (store w) in
  let k := splice_start (length ps) fromIndex in
  run (movePage fromIndex toIndex) w =
    match ps !! k with
    | Some p =>
        let r := delete k ps in
        let j := splice_start (length r) toIndex in
        (Returned (), put_pages (reindex (take j r ++ p :: drop j r)) w)
    | None =>
        let j := splice_start (length ps) toIndex in
        (Threw TypeError,
         put_outline (raw (store w)) (reindex (take j ps) ++ drop j ps) w)
    end.
Proof.
  destruct w as [s ls c]. cbn. unfold movePage. eval_action.
  unfold splice. rewrite length_fmap.
  set (ps := pages s). set (k := splice_start (length ps) fromIndex).
  rewrite <- !fmap_take, <- !fmap_drop, <- fmap_app, Nat.add_0_r, length_fmap.
  destruct (ps !! k) as [p|] eqn:Hk.
  - rewrite (drop_S ps p k Hk).
    cbn [take fmap list_fmap head mjoin option_join].
    replace (k + 1)%nat with (S k) by lia.
    rewrite <- delete_take_drop. set (r := delete k ps).
    set (j := splice_start (length r) toIndex).
    rewrite <- fmap_take, <- fmap_drop.
    change (Some p :: (Some <$> drop j r)) with (Some <$> p :: drop j r).
    rewrite <- fmap_app, reindex_from_defined. cbn.
    by rewrite omap_id_Some.
  - apply lookup_ge_None in Hk.
    rewrite (drop_ge ps k Hk), (take_ge ps k Hk), (drop_ge ps (k + 1)),
      app_nil_r by lia.
    cbn [take fmap list_fmap head mjoin option_join].
    rewrite <- fmap_take, <- fmap_drop, reindex_from_undefined. cbn.
    rewrite omap_app. cbn. by rewrite !omap_id_Some.
Qed.

Lemma pages_put_outline (r : string) (ps : list Page.t) (w : World) :
  pages (store (put_outline r ps w)) = ps.
Proof. reflexivity. Qed.

Lemma raw_synced_put_pages (ps : list Page.t) (w : World) :
  raw_synced (store (put_pages ps w)).
Proof. reflexivity. Qed.

(** *** Page indices *)

Lemma run_op_indexed (op : PageOp) (w : World) :
  indexed (pages (store w)) → indexed (pages (store (exec (run_op op) w))).
Proof.
  intros Hw. unfold exec.
  destruct op as [type content|afterIndex type content|index|fromIndex toIndex];
    cbn [run_op].
  - rewrite addPage_run. cbn [snd]. unfold put_pages.
    rewrite pages_put_outline. by apply indexed_snoc.
  - rewrite insertPage_run. apply indexed_reindex.
  - rewrite deletePage_run. apply indexed_reindex.
  - rewrite movePage_run.
    destruct (pages (store w) !! _); cbn [snd].
    + apply indexed_reindex.
    + rewrite pages_put_outline, reindex_indexed by by apply indexed_take.
      by rewrite take_drop.
Qed.

(** C2: from a state whose pages are numbered by position, every sequence
    of [addPage], [insertPage], [deletePage] and [movePage] calls, with any
    arguments, leaves the pages numbered by position after each call, also
    after a [movePage] that raises. *)
Theorem page_ops_keep_indices (ops : list PageOp) (w : World) :
  indexed (pages (store w)) →
  Forall (λ w', indexed (pages (store w'))) (run_ops ops w).
Proof.
  revert w. induction ops as [|op ops IH]; intros w Hw; cbn [run_ops].
  - constructor.
  - pose proof (run_op_indexed op w Hw) as Hstep.
    constructor; [exact Hstep|]. by apply IH.
Qed.

Lemma page_ops_keep_indices_witness :
  Forall (λ w', indexed (pages (store w'))) (run_ops demo_ops outline_world).
Proof.
  apply page_ops_keep_indices.
  intros i p Hi.
  repeat (destruct i as [|i]; [injection Hi as <-; reflexivity|]).
  discriminate Hi.
Defined.

(** The pages that [demo_ops] leave behind. *)
Example demo_ops_pages :
  pages ∘ store <$> last (run_ops demo_ops outline_world) =
    Some [Page.mk 0 PageType.content "B"; Page.mk 1 PageType.content "";
          Page.mk 2 PageType.cover "A"; Page.mk 3 PageType.summary "D"].
Proof. reflexivity. Qed.

(** *** The raw text *)

(** C3, as stated, fails: [setOutline] stores the raw text it is given;
    [updatePage] for an index that no page carries and [movePage] from a
    position that does not exist then leave that text in place. *)
Lemma raw_not_derived_after_setOutline :
  ¬ raw_synced (store (exec (setOutline "# A three page outline" demo_pages)
                         fresh_world)) ∧
  ¬ raw_synced (store (exec (updatePage 7 "x") outline_world)) ∧
  ¬ raw_synced (store (exec (movePage 3 0) outline_world)).
Proof. repeat split; vm_compute; discriminate. Qed.

(** C3, amended: the raw text equals the pages' contents joined by the
    separator right after [deletePage], [addPage] and [insertPage], after
    [updatePage] when a page carries the index, and after [movePage] when
    [fromIndex] designates a page (the outline is not empty and [fromIndex]
    is below its length).  [updatePage] without such a page changes nothing,
    and [setOutline] stores the raw text and the pages it is given. *)
Theorem raw_derived_after_page_edits (w : World) :
  (∀ index, raw_synced (store (exec (deletePage index) w))) ∧
  (∀ type content, raw_synced (store (exec (addPage type content) w))) ∧
  (∀ afterIndex type content,
     raw_synced (store (exec (insertPage afterIndex type content) w))) ∧
  (∀ index content,
     (∃ p, p ∈ pages (store w) ∧ Page.index p = index) →
     raw_synced (store (exec (updatePage index content) w))) ∧
  (∀ index content,
     Forall (λ p, Page.index p ≠ index) (pages (store w)) →
     run (updatePage index content) w = (Returned (), w)) ∧
  (∀ fromIndex toIndex,
     pages (store w) ≠ [] →
     fromIndex < Z.of_nat (length (pages (store w))) →
     raw_synced (store (exec (movePage fromIndex toIndex) w))) ∧
  (∀ r ps, outline (store (exec (setOutline r ps) w)) = Outline.mk r ps).
Proof.
  split_and!.
  - intros index. unfold exec. rewrite deletePage_run.
    apply raw_synced_put_pages.
  - intros type content. unfold exec. rewrite addPage_run.
    apply raw_synced_put_pages.
  - intros afterIndex type content. unfold exec. rewrite insertPage_run.
    apply raw_synced_put_pages.
  - intros index content (p & Hp & Hindex). unfold exec.
    rewrite updatePage_run. case_find k page; [apply raw_synced_put_pages|].
    exfalso. unfold find in *.
    match goal with H : list_find _ _ = None |- _ =>
      apply list_find_None in H; rewrite Forall_forall in H;
      exact (H p Hp Hindex)
    end.
  - intros index content Hnone. rewrite updatePage_run.
    by rewrite (find_none _ _ Hnone).
  - intros fromIndex toIndex Hne Hfrom. unfold exec. rewrite movePage_run.
    destruct (pages (store w) !! _) as [p|] eqn:Hk;
      [apply raw_synced_put_pages|].
    exfalso. apply lookup_ge_None in Hk.
    assert (splice_start (length (pages (store w))) fromIndex
            < length (pages (store w)))%nat; [|lia].
    apply splice_start_lt. split; [|done].
    destruct (pages (store w)); [done|cbn; lia].
  - intros r ps. destruct w as [s ls c]. reflexivity.
Qed.

Lemma raw_derived_after_page_edits_witness :
  raw_synced (store (exec (updatePage 1 "B2") outline_world)) ∧
  run (updatePage 7 "x") outline_world = (Returned (), outline_world) ∧
  raw_synced (store (exec (movePage (-1) 0) outline_world)).
Proof.
  pose proof (raw_derived_after_page_edits outline_world)
    as (_ & _ & _ & Hupdate & Hmiss & Hmove & _).
  split_and!.
  - apply Hupdate. exists (Page.mk 1 PageType.content "B").
    split; [|reflexivity]. apply list_elem_of_lookup. by exists 1%nat.
  - apply Hmiss. repeat constructor; cbn; lia.
  - apply Hmove; [discriminate|cbn; lia].
Defined.

(** * Further properties of the store *)

(** Bounds between numerals and the length of the pages of an example
    world. *)
Ltac bounds_by_computation :=
  vm_compute; repeat split; first [discriminate | reflexivity].

(** The pages of an example world are numbered by position. *)
Ltac indexed_by_cases :=
  let i := fresh "i" in
  let p := fresh "p" in
  let Hi := fresh "Hi" in
  intros i p Hi;
  repeat (destruct i as [|i]; [injection Hi as <-; reflexivity|]);
  discriminate Hi.

(** ** Lists and strings *)

Lemma insert_delete_same {A} (l : list A) (a : nat) (x : A) :
  l !! a = Some x → take a (delete a l) ++ x :: drop a (delete a l) = l.
Proof.
  intros Hx. rewrite delete_take_drop.
  assert (a < length l)%nat by (by eapply lookup_lt_Some).
  rewrite take_app_le, drop_app_ge by (rewrite length_take; lia).
  rewrite take_take, drop_drop, length_take.
  replace (a `min` a)%nat with a by lia.
  replace (S a + (a - a `min` length l))%nat with (S a) by lia.
  by apply take_drop_middle.
Qed.

Lemma delete_inserted {A} (l : list A) (b : nat) (x : A) :
  (b ≤ length l)%nat → delete b (take b l ++ x :: drop b l) = l.
Proof.
  intros Hb.
  replace b with (length (take b l)) at 1 by (rewrite length_take; lia).
  by rewrite delete_middle, take_drop.
Qed.

Lemma lookup_inserted {A} (l : list A) (b : nat) (x : A) :
  (b ≤ length l)%nat → (take b l ++ x :: drop b l) !! b = Some x.
Proof.
  intros Hb. rewrite lookup_app_r by (rewrite length_take; lia).
  rewrite length_take. by replace (b - b `min` length l)%nat with 0%nat by lia.
Qed.

Lemma filter_keeps_all {A} (P : A → Prop) `{∀ x, Decision (P x)} (l : list A) :
  Forall P l → filter P l = l.
Proof.
  induction 1 as [|x l Hx _ IH]; [done|].
  by rewrite filter_cons_True, IH.
Qed.

Lemma find_index {A} (P : A → Prop) `{∀ x, Decision (P x)}
    (l : list A) (k : nat) (x : A) :
  find P l = Some (k, x) → l !! k = Some x ∧ P x.
Proof. unfold find. intros (? & ? & _)%list_find_Some. done. Qed.

(** Replacing the object that [find] returned by one that still satisfies
    the predicate does not move it. *)
Lemma find_insert_same {A} (P : A → Prop) `{∀ x, Decision (P x)}
    (l : list A) (k : nat) (x y : A) :
  find P l = Some (k, x) → P y → find P (<[k := y]> l) = Some (k, y).
Proof.
  unfold find. intros (Hk & Hx & Hbefore)%list_find_Some Hy.
  apply list_find_Some. split_and!; [|done|].
  - apply list_lookup_insert_eq. by eapply lookup_lt_Some.
  - intros j z Hz Hj. rewrite list_lookup_insert_ne in Hz by lia.
    by eapply Hbefore.
Qed.

Lemma string_app_assoc (s1 s2 s3 : string) :
  (s1 +:+ s2) +:+ s3 = s1 +:+ s2 +:+ s3.
Proof.
  induction s1 as [|c s1 IH]; [done|].
  change (String c ((s1 +:+ s2) +:+ s3) = String c (s1 +:+ s2 +:+ s3)).
  by rewrite IH.
Qed.

Lemma join_snoc (sep : string) (l : list string) (x : string) :
  l ≠ [] → join sep (l ++ [x]) = join sep l +:+ sep +:+ x.
Proof.
  induction l as [|y l IH]; [done|]. intros _.
  destruct l as [|z l]; [done|].
  change (join sep ((y :: z :: l) ++ [x]))
    with (y +:+ sep +:+ join sep ((z :: l) ++ [x])).
  rewrite IH by done.
  change (join sep (y :: z :: l)) with (y +:+ sep +:+ join sep (z :: l)).
  by rewrite !string_app_assoc.
Qed.

Lemma if_truthy_string (url : string) :
  (if truthy_string url then url else "") = url.
Proof.
  destruct (truthy_string url) eqn:Hurl; [done|].
  apply not_true_iff_false in Hurl. rewrite truthy_string_true in Hurl.
  by destruct (decide (url = "")) as [->|].
Qed.

(** ** Pages apart from their numbers *)

Lemma strip_reindex (ps : list Page.t) : strip <$> reindex ps = strip <$> ps.
Proof.
  apply list_eq. intros i. unfold reindex.
  rewrite !list_lookup_fmap, list_lookup_imap. by destruct (ps !! i).
Qed.

(** Renumbering forgets the numbers it finds. *)
Lemma reindex_strip (l1 l2 : list Page.t) :
  strip <$> l1 = strip <$> l2 → reindex l1 = reindex l2.
Proof.
  intros H. apply list_eq. intros i. unfold reindex.
  rewrite !list_lookup_imap.
  apply (f_equal (λ l, l !! i)) in H. rewrite !list_lookup_fmap in H.
  destruct (l1 !! i) as [[i1 t1 c1]|], (l2 !! i) as [[i2 t2 c2]|]; cbn in *;
    try done.
  injection H as -> ->. reflexivity.
Qed.

Lemma length_reindex (ps : list Page.t) : length (reindex ps) = length ps.
Proof. apply length_imap. Qed.

Lemma splice_start_position (len : nat) (i : Z) :
  0 ≤ i ≤ Z.of_nat len → splice_start len i = Z.to_nat i.
Proof. intros Hi. unfold splice_start. destruct (Z.ltb_spec i 0); lia. Qed.

Lemma put_pages_put_pages (ps ps' : list Page.t) (w : World) :
  put_pages ps' (put_pages ps w) = put_pages ps' w.
Proof. reflexivity. Qed.

Lemma put_outline_same (w : World) :
  put_outline (raw (store w)) (pages (store w)) w = w.
Proof. by destruct w as [[st tp [r ps] pr im ti ri ui ct os la] ls c]. Qed.

(** A page that the moved one passes keeps its place among the others. *)
Lemma moved_pages_permutation (ps : list Page.t) (a j : nat) (p : Page.t) :
  ps !! a = Some p →
  strip <$> reindex (take j (delete a ps) ++ p :: drop j (delete a ps))
    ≡ₚ strip <$> ps.
Proof.
  intros Hp. rewrite strip_reindex. apply fmap_Permutation.
  rewrite <- Permutation_middle, take_drop.
  symmetry. by apply delete_Permutation.
Qed.

(** The pages after a move between two positions of the array. *)
Lemma movePage_positions_run (w : World) (a b : nat) (p : Page.t) :
  pages (store w) !! a = Some p → (b < length (pages (store w)))%nat →
  run (movePage (Z.of_nat a) (Z.of_nat b)) w =
    (Returned (),
     put_pages (reindex (take b (delete a (pages (store w))) ++
                         p :: drop b (delete a (pages (store w))))) w).
Proof.
  intros Hp Hb. pose proof (lookup_lt_Some _ _ _ Hp) as Ha.
  rewrite movePage_run. cbn zeta.
  rewrite (splice_start_position _ (Z.of_nat a)), Nat2Z.id, Hp by lia.
  rewrite (splice_start_position _ (Z.of_nat b)), Nat2Z.id; [done|].
  rewrite length_delete by (by eexists). lia.
Qed.

(** ** Moving a page *)

(** X1: [movePage(fromIndex, toIndex)] between two positions of the outline
    returns, puts the page that was at [fromIndex] at position [toIndex]
    with that number, keeps the number of pages, and keeps every page's
    type and content: the pages are rearranged, none is lost or doubled. *)
Theorem movePage_between_positions (w : World) (fromIndex toIndex : Z) :
  0 ≤ fromIndex < Z.of_nat (length (pages (store w))) →
  0 ≤ toIndex < Z.of_nat (length (pages (store w))) →
  ∃ p ps',
    pages (store w) !! Z.to_nat fromIndex = Some p ∧
    run (movePage fromIndex toIndex) w = (Returned (), put_pages ps' w) ∧
    ps' !! Z.to_nat toIndex = Some (Page.set_index toIndex p) ∧
    length ps' = length (pages (store w)) ∧
    strip <$> ps' ≡ₚ strip <$> pages (store w).
Proof.
  intros Hfrom Hto.
  destruct (lookup_lt_is_Some_2 (pages (store w)) (Z.to_nat fromIndex))
    as [p Hp]; [lia|].
  pose proof (movePage_positions_run w (Z.to_nat fromIndex) (Z.to_nat toIndex)
                p Hp ltac:(lia)) as Hrun.
  rewrite !Z2Nat.id in Hrun by lia.
  assert (length (delete (Z.to_nat fromIndex) (pages (store w))) =
          (length (pages (store w)) - 1)%nat) as Hlen
    by (rewrite length_delete by (by eexists); lia).
  eexists p, _. split_and!; [done|exact Hrun| | |].
  - unfold reindex. rewrite list_lookup_imap, lookup_inserted by lia.
    cbn. do 2 f_equal. lia.
  - rewrite length_reindex, length_app. cbn.
    rewrite length_take, length_drop. lia.
  - by apply moved_pages_permutation.
Qed.

Lemma movePage_between_positions_witness :
  ∃ p ps',
    pages (store outline_world) !! Z.to_nat 2 = Some p ∧
    run (movePage 2 0) outline_world = (Returned (), put_pages ps' outline_world) ∧
    ps' !! Z.to_nat 0 = Some (Page.set_index 0 p) ∧
    length ps' = length (pages (store outline_world)) ∧
    strip <$> ps' ≡ₚ strip <$> pages (store outline_world).
Proof. apply movePage_between_positions; bounds_by_computation. Defined.

(** X2: [movePage] from a position at or after the end of the outline, or
    on an empty outline, raises a [TypeError]; the raw text and every
    page's type and content stay, and a store whose pages are numbered by
    position is left exactly as it was. *)
Theorem movePage_missing_position (w : World) (fromIndex toIndex : Z) :
  Z.of_nat (length (pages (store w))) ≤ fromIndex ∨ pages (store w) = [] →
  (run (movePage fromIndex toIndex) w).1 = Threw TypeError ∧
  raw (store (exec (movePage fromIndex toIndex) w)) = raw (store w) ∧
  strip <$> pages (store (exec (movePage fromIndex toIndex) w)) =
    strip <$> pages (store w) ∧
  (indexed (pages (store w)) → exec (movePage fromIndex toIndex) w = w).
Proof.
  intros Hfrom. unfold exec. rewrite movePage_run. cbn zeta.
  destruct (pages (store w) !! _) as [p|] eqn:Hk.
  { exfalso. apply lookup_lt_Some, splice_start_lt in Hk.
    destruct Hfrom as [?|Hnil]; [lia|]. rewrite Hnil in Hk. cbn in Hk. lia. }
  cbn [fst snd]. split_and!; [done|done| |].
  - rewrite pages_put_outline, fmap_app, strip_reindex, <- fmap_app.
    by rewrite take_drop.
  - intros Hw. rewrite reindex_indexed by by apply indexed_take.
    rewrite take_drop. apply put_outline_same.
Qed.

Lemma movePage_missing_position_witness :
  (run (movePage 3 1) outline_world).1 = Threw TypeError ∧
  raw (store (exec (movePage 3 1) outline_world)) = raw (store outline_world) ∧
  strip <$> pages (store (exec (movePage 3 1) outline_world)) =
    strip <$> pages (store outline_world) ∧
  (indexed (pages (store outline_world)) →
   exec (movePage 3 1) outline_world = outline_world).
Proof. apply movePage_missing_position. left. bounds_by_computation. Defined.

Lemma movePage_back_positions (w : World) (a b : nat) :
  (a < length (pages (store w)))%nat → (b < length (pages (store w)))%nat →
  run (movePage (Z.of_nat a) (Z.of_nat b);; movePage (Z.of_nat b) (Z.of_nat a)) w =
    (Returned (), put_pages (reindex (pages (store w))) w).
Proof.
  intros Ha Hb.
  destruct (lookup_lt_is_Some_2 (pages (store w)) a) as [p Hp]; [lia|].
  assert (length (delete a (pages (store w))) = (length (pages (store w)) - 1)%nat)
    as Hlen by (rewrite length_delete by (by eexists); lia).
  remember (delete a (pages (store w))) as r eqn:Hr.
  remember (reindex (take b r ++ p :: drop b r)) as l1 eqn:Hl.
  assert (run (movePage (Z.of_nat a) (Z.of_nat b)) w = (Returned (), put_pages l1 w))
    as Hfirst by (subst; by apply movePage_positions_run).
  assert (strip <$> l1 = take b (strip <$> r) ++ strip p :: drop b (strip <$> r))
    as Hl1.
  { subst l1. by rewrite strip_reindex, fmap_app, fmap_cons, fmap_take, fmap_drop. }
  assert (length l1 = length (pages (store w))) as Hlen1.
  { subst l1. rewrite length_reindex, length_app. cbn.
    rewrite length_take, length_drop. lia. }
  destruct (lookup_lt_is_Some_2 l1 b) as [p' Hp']; [lia|].
  assert (strip p' = strip p) as Hstrip.
  { apply (f_equal (λ l, l !! b)) in Hl1.
    rewrite list_lookup_fmap, Hp', lookup_inserted in Hl1
      by (rewrite length_fmap; lia).
    cbn in Hl1. congruence. }
  assert (run (movePage (Z.of_nat b) (Z.of_nat a)) (put_pages l1 w) =
          (Returned (),
           put_pages (reindex (take a (delete b l1) ++ p' :: drop a (delete b l1)))
             (put_pages l1 w))) as Hsecond.
  { apply movePage_positions_run; [done|]. cbn. lia. }
  unfold run, mbind, action_bind, bind in *. rewrite Hfirst, Hsecond.
  rewrite put_pages_put_pages. do 2 f_equal.
  apply reindex_strip.
  rewrite fmap_app, fmap_cons, fmap_take, fmap_drop, list_fmap_delete, Hl1, Hstrip.
  rewrite delete_inserted by (rewrite length_fmap; lia).
  rewrite Hr, list_fmap_delete.
  apply insert_delete_same. by rewrite list_lookup_fmap, Hp.
Qed.

(** X3: moving a page from one position of the outline to another and then
    back restores the order of the pages: the outline holds the pages it
    held, renumbered by position, and the raw text derived from them. *)
Theorem movePage_there_and_back (w : World) (fromIndex toIndex : Z) :
  0 ≤ fromIndex < Z.of_nat (length (pages (store w))) →
  0 ≤ toIndex < Z.of_nat (length (pages (store w))) →
  run (movePage fromIndex toIndex;; movePage toIndex fromIndex) w =
    (Returned (), put_pages (reindex (pages (store w))) w).
Proof.
  intros Hfrom Hto.
  rewrite <- (Z2Nat.id fromIndex), <- (Z2Nat.id toIndex) by lia.
  apply movePage_back_positions; lia.
Qed.

Lemma movePage_there_and_back_witness :
  run (movePage 0 2;; movePage 2 0) outline_world =
    (Returned (), put_pages (reindex (pages (store outline_world))) outline_world).
Proof. apply movePage_there_and_back; bounds_by_computation. Defined.

(** ** Deleting and inserting *)

Lemma filter_index_offset (ps : list Page.t) (off i : nat) :
  (∀ j p, ps !! j = Some p → Page.index p = Z.of_nat (off + j)) →
  filter (λ p, Page.index p ≠ Z.of_nat (off + i)) ps = delete i ps.
Proof.
  revert off i. induction ps as [|x ps IH]; intros off i Hps; [done|].
  pose proof (Hps 0%nat x eq_refl) as Hx.
  destruct i as [|i].
  - rewrite filter_cons_False by (intros Hne; apply Hne; exact Hx).
    cbn. apply filter_keeps_all, Forall_lookup. intros j p Hp.
    rewrite (Hps (S j) p Hp). lia.
  - rewrite filter_cons_True by (rewrite Hx; lia).
    cbn. f_equal. replace (off + S i)%nat with (S off + i)%nat by lia.
    apply IH. intros j p Hp. rewrite (Hps (S j) p Hp). f_equal. lia.
Qed.

(** X4: in an outline numbered by position, [deletePage(index)] removes
    exactly the page at position [index] and renumbers the rest; an index
    outside the outline removes nothing and only derives the raw text
    again. *)
Theorem deletePage_at_position (w : World) (index : Z) :
  indexed (pages (store w)) →
  (0 ≤ index < Z.of_nat (length (pages (store w))) →
   run (deletePage index) w =
     (Returned (),
      put_pages (reindex (delete (Z.to_nat index) (pages (store w)))) w)) ∧
  (index < 0 ∨ Z.of_nat (length (pages (store w))) ≤ index →
   run (deletePage index) w = (Returned (), put_pages (pages (store w)) w)).
Proof.
  intros Hw. rewrite deletePage_run. split.
  - intros Hindex.
    rewrite <- (filter_index_offset _ 0 (Z.to_nat index) Hw).
    by replace (Z.of_nat (0 + Z.to_nat index)) with index by lia.
  - intros Hindex. rewrite filter_keeps_all, reindex_indexed; [done..|].
    apply Forall_lookup. intros j p Hp. rewrite (Hw j p Hp).
    apply lookup_lt_Some in Hp. lia.
Qed.

Lemma deletePage_at_position_witness :
  run (deletePage 1) outline_world =
    (Returned (),
     put_pages (reindex (delete (Z.to_nat 1) (pages (store outline_world))))
       outline_world) ∧
  run (deletePage 5) outline_world =
    (Returned (), put_pages (pages (store outline_world)) outline_world).
Proof.
  assert (indexed (pages (store outline_world))) as Hw by indexed_by_cases.
  split.
  - apply (proj1 (deletePage_at_position outline_world 1 Hw)).
    bounds_by_computation.
  - apply (proj2 (deletePage_at_position outline_world 5 Hw)). right.
    bounds_by_computation.
Defined.

(** X5: [insertPage(afterIndex, type, content)] always returns and adds
    exactly one page, with the given type and content (or ['']).  The new
    page stands at position [afterIndex + 1], cut down to the length of the
    outline; for [afterIndex] below -1 the position counts back from the
    end and stops at the first place.  The other pages keep their order,
    types and contents. *)
Theorem insertPage_placement (w : World) (afterIndex : Z) (type : PageType.t)
    (content : option string) :
  let ps := pages (store w) in
  let k := if afterIndex <? -1
           then Z.to_nat (Z.max 0 (Z.of_nat (length ps) + afterIndex + 1))
           else Z.to_nat (Z.min (afterIndex + 1) (Z.of_nat (length ps))) in
  ∃ ps',
    run (insertPage afterIndex type content) w = (Returned (), put_pages ps' w) ∧
    length ps' = S (length ps) ∧
    ps' !! k = Some (Page.mk (Z.of_nat k) type (default "" content)) ∧
    strip <$> delete k ps' = strip <$> ps.
Proof.
  intros ps k. rewrite insertPage_run. cbn zeta. fold ps.
  assert (splice_start (length ps) (afterIndex + 1) = k) as ->.
  { unfold splice_start, k.
    destruct (Z.ltb_spec (afterIndex + 1) 0), (Z.ltb_spec afterIndex (-1)); lia. }
  assert (k ≤ length ps)%nat as Hk.
  { unfold k. destruct (Z.ltb_spec afterIndex (-1)); lia. }
  eexists. split_and!; [done| | |].
  - rewrite length_reindex, length_app. cbn. rewrite length_take, length_drop. lia.
  - unfold reindex. rewrite list_lookup_imap, lookup_inserted by done. done.
  - rewrite list_fmap_delete, strip_reindex, fmap_app, fmap_cons, fmap_take,
      fmap_drop.
    apply delete_inserted. by rewrite length_fmap.
Qed.

(** X6: in an outline numbered by position, [insertPage] after the last
    page, or after any position beyond it, does what [addPage] does. *)
Theorem insertPage_at_end_is_addPage (w : World) (afterIndex : Z)
    (type : PageType.t) (content : option string) :
  indexed (pages (store w)) →
  Z.of_nat (length (pages (store w))) - 1 ≤ afterIndex →
  run (insertPage afterIndex type content) w = run (addPage type content) w.
Proof.
  intros Hw Hafter. rewrite insertPage_run, addPage_run. cbn zeta.
  assert (splice_start (length (pages (store w))) (afterIndex + 1) =
          length (pages (store w))) as ->.
  { unfold splice_start. destruct (Z.ltb_spec (afterIndex + 1) 0); lia. }
  rewrite firstn_all, drop_all. do 2 f_equal.
  transitivity (reindex (pages (store w) ++
    [Page.mk (Z.of_nat (length (pages (store w)))) type (default "" content)])).
  - apply reindex_strip. by rewrite !fmap_app.
  - apply reindex_indexed. by apply indexed_snoc.
Qed.

Lemma insertPage_at_end_is_addPage_witness :
  run (insertPage 7 PageType.summary (Some "D")) outline_world =
    run (addPage PageType.summary (Some "D")) outline_world.
Proof.
  apply insertPage_at_end_is_addPage;
    [indexed_by_cases|bounds_by_computation].
Defined.

(** X7: in an outline numbered by position, inserting a page after a
    position and deleting the page with the next number restores the pages;
    the raw text is then the one derived from them. *)
Theorem insertPage_then_deletePage (w : World) (afterIndex : Z)
    (type : PageType.t) (content : option string) :
  indexed (pages (store w)) →
  -1 ≤ afterIndex < Z.of_nat (length (pages (store w))) →
  run (insertPage afterIndex type content;; deletePage (afterIndex + 1)) w =
    (Returned (), put_pages (pages (store w)) w).
Proof.
  intros Hw Hafter.
  pose proof (insertPage_run w afterIndex type content) as Hfirst.
  cbn zeta in Hfirst.
  rewrite (splice_start_position _ (afterIndex + 1)) in Hfirst by lia.
  remember (Z.to_nat (afterIndex + 1)) as k eqn:Hk.
  remember (reindex (take k (pages (store w)) ++
              Page.mk (afterIndex + 1) type (default "" content)
              :: drop k (pages (store w)))) as l1 eqn:Hl1.
  pose proof (deletePage_run (put_pages l1 w) (afterIndex + 1)) as Hsecond.
  change (pages (store (put_pages l1 w))) with l1 in Hsecond.
  unfold run, mbind, action_bind, bind in *. rewrite Hfirst, Hsecond.
  rewrite put_pages_put_pages. do 2 f_equal.
  transitivity (reindex (pages (store w))); [|by apply reindex_indexed].
  apply reindex_strip.
  replace (afterIndex + 1) with (Z.of_nat (0 + k)) by lia.
  rewrite (filter_index_offset l1 0 k).
  2:{ intros j p Hp. subst l1. by apply indexed_reindex in Hp. }
  subst l1. rewrite list_fmap_delete, strip_reindex, fmap_app, fmap_cons,
    fmap_take, fmap_drop.
  apply delete_inserted. rewrite length_fmap. lia.
Qed.

Lemma insertPage_then_deletePage_witness :
  run (insertPage 0 PageType.content (Some "new");; deletePage (0 + 1))
      outline_world =
    (Returned (), put_pages (pages (store outline_world)) outline_world).
Proof.
  apply insertPage_then_deletePage;
    [indexed_by_cases|bounds_by_computation].
Defined.

(** X8: when the raw text is the one derived from the pages, [addPage]
    extends it by the separator and the new content; on an empty outline
    the raw text becomes the new content alone. *)
Theorem addPage_appends_to_raw (w : World) (type : PageType.t)
    (content : option string) :
  raw_synced (store w) →
  raw (store (exec (addPage type content) w)) =
    match pages (store w) with
    | [] => default "" content
    | _ => raw (store w) +:+ PAGE_SEPARATOR +:+ default "" content
    end.
Proof.
  intros Hsync. unfold exec. rewrite addPage_run. cbn [snd].
  unfold raw_synced in Hsync. rewrite Hsync.
  change (raw (store (put_pages ?ps w)))
    with (join PAGE_SEPARATOR (Page.content <$> ps)).
  destruct (pages (store w)) as [|p ps] eqn:Hps; [done|].
  rewrite fmap_app. apply join_snoc. done.
Qed.

Lemma addPage_appends_to_raw_witness :
  raw (store (exec (addPage PageType.summary (Some "D")) edited_world)) =
    raw (store edited_world) +:+ PAGE_SEPARATOR +:+ "D".
Proof.
  apply (addPage_appends_to_raw edited_world PageType.summary (Some "D")).
  reflexivity.
Defined.

(** X9: two [updatePage] calls for one index leave what the second one
    alone leaves: the later content wins, whether a page carries the index
    or not. *)
Theorem updatePage_last_write_wins (w : World) (index : Z) (c1 c2 : string) :
  run (updatePage index c1;; updatePage index c2) w = run (updatePage index c2) w.
Proof.
  pose proof (updatePage_run w index c1) as Hfirst.
  pose proof (updatePage_run w index c2) as Hdirect.
  destruct (find (λ p, Page.index p = index) (pages (store w)))
    as [[k page]|] eqn:Hfind.
  - destruct (find_index _ _ _ _ Hfind) as [Hk Hpage].
    pose proof (updatePage_run
      (put_pages (<[k := Page.set_content c1 page]> (pages (store w))) w)
      index c2) as Hsecond.
    change (pages (store (put_pages ?ps w))) with ps in Hsecond.
    rewrite (find_insert_same _ _ k page (Page.set_content c1 page) Hfind)
      in Hsecond by done.
    rewrite list_insert_insert_eq, put_pages_put_pages in Hsecond.
    unfold run, mbind, action_bind, bind in *.
    by rewrite Hfirst, Hsecond, Hdirect.
  - unfold run, mbind, action_bind, bind in *.
    rewrite Hfirst. fold (run (updatePage index c2) w).
    unfold run. by rewrite Hdirect.
Qed.

(** X10: [updatePage] changes no page number, no page type and no page
    other than those carrying the index, so it keeps an outline numbered
    by position numbered by position. *)
Theorem updatePage_keeps_numbering (w : World) (index : Z) (content : string) :
  Page.index <$> pages (store (exec (updatePage index content) w)) =
    Page.index <$> pages (store w) ∧
  Page.type <$> pages (store (exec (updatePage index content) w)) =
    Page.type <$> pages (store w) ∧
  (∀ k p, pages (store w) !! k = Some p → Page.index p ≠ index →
          pages (store (exec (updatePage index content) w)) !! k = Some p) ∧
  (indexed (pages (store w)) →
   indexed (pages (store (exec (updatePage index content) w)))).
Proof.
  unfold exec. rewrite updatePage_run.
  destruct (find (λ p, Page.index p = index) (pages (store w)))
    as [[k page]|] eqn:Hfind; cbn [snd]; [|done].
  destruct (find_index _ _ _ _ Hfind) as [Hk Hpage].
  change (pages (store (put_pages ?ps w))) with ps.
  split_and!.
  - rewrite list_fmap_insert. by apply list_insert_id; rewrite list_lookup_fmap, Hk.
  - rewrite list_fmap_insert. by apply list_insert_id; rewrite list_lookup_fmap, Hk.
  - intros j p Hp Hne. rewrite list_lookup_insert_ne; [done|].
    intros ->. congruence.
  - intros Hw j p Hp.
    destruct (decide (j = k)) as [->|Hne].
    + rewrite list_lookup_insert_eq in Hp by (by eapply lookup_lt_Some).
      injection Hp as <-. cbn. by apply Hw.
    + rewrite list_lookup_insert_ne in Hp by done. by apply Hw.
Qed.

(** X11: whatever the numbers of the pages were, [insertPage] and
    [deletePage] leave the pages numbered by position, and so does every
    [movePage] that returns. *)
Theorem renumbering_repairs (w : World) :
  (∀ afterIndex type content,
     indexed (pages (store (exec (insertPage afterIndex type content) w)))) ∧
  (∀ index, indexed (pages (store (exec (deletePage index) w)))) ∧
  (∀ fromIndex toIndex,
     (run (movePage fromIndex toIndex) w).1 = Returned () →
     indexed (pages (store (exec (movePage fromIndex toIndex) w)))).
Proof.
  unfold exec. split_and!.
  - intros. rewrite insertPage_run. apply indexed_reindex.
  - intros. rewrite deletePage_run. apply indexed_reindex.
  - intros fromIndex toIndex. rewrite movePage_run. cbn zeta.
    destruct (pages (store w) !! _); cbn [fst snd]; [|done].
    intros _. apply indexed_reindex.
Qed.

(** ** Reports on the images *)

Ltac image_op_goals Hfind :=
  split_and!;
  [ done
  | first
      [ done
      | let Hk := fresh "Hk" in
        destruct (find_index _ _ _ _ Hfind) as [Hk _];
        rewrite list_fmap_insert; apply list_insert_id;
        rewrite list_lookup_fmap, Hk; try done ]
  | unfold current; cbn; lia
  | done
  | done ].

(** What the four calls that report on an image have in common. *)
Lemma run_image_op_effect (op : ImageOp) (w : World) :
  let w' := exec (run_image_op op) w in
  (run (run_image_op op) w).1 = Returned () ∧
  Image.index <$> images (store w') = Image.index <$> images (store w) ∧
  current (store w') = current (store w) + done_calls [op] ∧
  outside_images (store w') = outside_images (store w) ∧
  localStorage w' = localStorage w.
Proof.
  destruct w as [s ls c].
  destruct op as [index status url error|index progress|time index newUrl|index];
    cbn [run_image_op].
  - unfold updateProgress. eval_action; case_find k img.
    + destruct status; cbn; image_op_goals Heqo;
        by destruct (truthy error), (truthy url).
    + destruct status; cbn; image_op_goals Heqo.
  - unfold updateImageProgress. eval_action; case_find k img; cbn;
      image_op_goals Heqo.
  - unfold updateImage. eval_action; case_find k img; cbn; image_op_goals Heqo.
  - unfold setImageRetrying. eval_action; case_find k img; cbn;
      image_op_goals Heqo.
Qed.

Lemma done_calls_app (ops1 ops2 : list ImageOp) :
  done_calls (ops1 ++ ops2) = done_calls ops1 + done_calls ops2.
Proof.
  induction ops1 as [|[? [] ? ?| | |] ops1 IH]; cbn [app done_calls]; lia.
Qed.

Lemma exec_image_ops_effect (ops : list ImageOp) (w : World) :
  let w' := exec_image_ops ops w in
  Image.index <$> images (store w') = Image.index <$> images (store w) ∧
  current (store w') = current (store w) + done_calls ops ∧
  outside_images (store w') = outside_images (store w) ∧
  localStorage w' = localStorage w.
Proof.
  revert w. induction ops as [|op ops IH]; intros w.
  - cbn. split_and!; try done. lia.
  - cbn zeta in *. unfold exec_image_ops in *. cbn [foldl].
    destruct (IH (exec (run_image_op op) w)) as (Hi & Hc & Hs & Hl).
    destruct (run_image_op_effect op w) as (_ & Hi1 & Hc1 & Hs1 & Hl1).
    split_and!; [congruence| |congruence..].
    rewrite Hc, Hc1. change (op :: ops) with ([op] ++ ops).
    rewrite (done_calls_app [op]). lia.
Qed.

(** X12: no sequence of [updateProgress], [updateImageProgress],
    [updateImage] and [setImageRetrying] calls adds, removes or reorders an
    image or changes the index of one; outside [images] and
    [progress.current] the store stays as it was, and so does the local
    storage. *)
Theorem image_ops_keep_the_images_in_place (ops : list ImageOp) (w : World) :
  let w' := exec_image_ops ops w in
  Image.index <$> images (store w') = Image.index <$> images (store w) ∧
  outside_images (store w') = outside_images (store w) ∧
  localStorage w' = localStorage w.
Proof.
  destruct (exec_image_ops_effect ops w) as (Hi & _ & Hs & Hl). done.
Qed.

(** X13: over any sequence of these calls [progress.current] grows by the
    number of [updateProgress(_, 'done', ...)] calls, whether they find an
    image or not; it never decreases. *)
Theorem current_counts_done_calls (ops : list ImageOp) (w : World) :
  current (store (exec_image_ops ops w)) = current (store w) + done_calls ops ∧
  current (store w) ≤ current (store (exec_image_ops ops w)).
Proof.
  destruct (exec_image_ops_effect ops w) as (_ & Hc & _).
  split; [done|]. rewrite Hc.
  assert (0 ≤ done_calls ops); [|lia].
  clear. induction ops as [|[? [] ? ?| | |] ops IH]; cbn [done_calls]; lia.
Qed.

Lemma startGeneration_images (w : World) :
  images (store (exec startGeneration w)) = fresh_image <$> pages (store w) ∧
  current (store (exec startGeneration w)) = 0 ∧
  Progress.total (progress (store (exec startGeneration w))) =
    Z.of_nat (length (pages (store w))).
Proof. by destruct w as [s ls c]. Qed.

(** X14: in a generation started on an outline numbered by position, after
    any sequence of reports there is one image per page and the image at
    position [i] carries the index [i]: a search by index reaches the image
    of that page. *)
Theorem generation_keeps_images_by_position (ops : list ImageOp) (w : World) :
  indexed (pages (store w)) →
  let w' := exec_image_ops ops (exec startGeneration w) in
  length (images (store w')) = length (pages (store w)) ∧
  ∀ (i : nat) (img : Image.t),
    images (store w') !! i = Some img → Image.index img = Z.of_nat i.
Proof.
  intros Hw w'.
  destruct (exec_image_ops_effect ops (exec startGeneration w))
    as (Hindices & _).
  fold w' in Hindices.
  destruct (startGeneration_images w) as (Himgs & _).
  rewrite Himgs, <- list_fmap_compose in Hindices.
  split.
  - apply (f_equal length) in Hindices. by rewrite !length_fmap in Hindices.
  - intros i img Hi. apply (f_equal (λ l, l !! i)) in Hindices.
    rewrite !list_lookup_fmap, Hi in Hindices. cbn in Hindices.
    destruct (pages (store w) !! i) as [p|] eqn:Hp; [|done].
    cbn in Hindices. injection Hindices as ->. by apply Hw.
Qed.

Lemma generation_keeps_images_by_position_witness :
  length (images (store (exec_image_ops
            [op_updateProgress 1 UpdateStatus.error None (Some "timeout");
             op_setImageRetrying 1;
             op_updateImage 1700000000500 1 "/img/1.png"]
            (exec startGeneration outline_world)))) =
    length (pages (store outline_world)) ∧
  ∀ (i : nat) (img : Image.t),
    images (store (exec_image_ops
              [op_updateProgress 1 UpdateStatus.error None (Some "timeout");
               op_setImageRetrying 1;
               op_updateImage 1700000000500 1 "/img/1.png"]
              (exec startGeneration outline_world))) !! i = Some img →
    Image.index img = Z.of_nat i.
Proof.
  apply generation_keeps_images_by_position. indexed_by_cases.
Defined.

Lemma find_by_position (imgs : list Image.t) (i : nat) (img : Image.t) :
  (∀ j x, imgs !! j = Some x → Image.index x = Z.of_nat j) →
  imgs !! i = Some img →
  find (λ x, Image.index x = Z.of_nat i) imgs = Some (i, img).
Proof.
  intros Himgs Hi. unfold find. apply list_find_Some.
  split_and!; [done|by apply Himgs|].
  intros j y Hy Hj. rewrite (Himgs j y Hy). lia.
Qed.

Lemma updateProgress_done_found (w : World) (index : Z) (url : string)
    (k : nat) (img : Image.t) :
  find (λ x, Image.index x = index) (images (store w)) = Some (k, img) →
  images (store (exec (updateProgress index UpdateStatus.done (Some url) None) w)) =
    <[k := Image.mk (Image.index img)
             (if truthy_string url then url else Image.url img)
             ImageStatus.done (Image.error img)
             (Image.retryable img) (Image.progress img)]> (images (store w)).
Proof.
  destruct w as [s ls c]. cbn [store]. intros Hfind.
  unfold updateProgress. eval_action. rewrite Hfind. cbn.
  by destruct (truthy_string url).
Qed.

Lemma exec_image_ops_snoc (ops : list ImageOp) (op : ImageOp) (w : World) :
  exec_image_ops (ops ++ [op]) w = exec (run_image_op op) (exec_image_ops ops w).
Proof. unfold exec_image_ops. by rewrite foldl_app. Qed.

Lemma done_calls_complete_pages (url : Z → string) (ps : list Page.t) :
  done_calls (complete_pages url ps) = Z.of_nat (length ps).
Proof.
  induction ps as [|p ps IH]; [done|].
  unfold complete_pages in *. cbn [fmap list_fmap done_calls length].
  rewrite IH. lia.
Qed.

(** After the reports for the first [m] pages, their images are done and
    the others are as [startGeneration] made them. *)
Lemma complete_pages_prefix (url : Z → string) (w : World) (m : nat) :
  indexed (pages (store w)) → (m ≤ length (pages (store w)))%nat →
  images (store (exec_image_ops (complete_pages url (take m (pages (store w))))
                   (exec startGeneration w))) =
    (done_image url <$> take m (pages (store w))) ++
    (fresh_image <$> drop m (pages (store w))).
Proof.
  intros Hw. induction m as [|m IH]; intros Hm.
  - rewrite take_0, drop_0. unfold complete_pages, exec_image_ops.
    cbn [fmap list_fmap foldl app].
    by destruct (startGeneration_images w) as [-> _].
  - destruct (lookup_lt_is_Some_2 (pages (store w)) m) as [p Hp]; [lia|].
    rewrite (take_S_r _ _ _ Hp). unfold complete_pages at 1.
    rewrite fmap_app. fold (complete_pages url (take m (pages (store w)))).
    cbn [fmap list_fmap]. rewrite exec_image_ops_snoc. cbn [run_image_op].
    specialize (IH ltac:(lia)). rewrite (drop_S _ _ _ Hp) in IH.
    cbn [fmap list_fmap] in IH.
    assert (length (done_image url <$> take m (pages (store w))) = m) as Hlen.
    { rewrite length_fmap, length_take. lia. }
    rewrite (Hw m p Hp).
    rewrite (updateProgress_done_found _ _ _ m (fresh_image p)).
    + rewrite IH. rewrite <- Hlen at 1. rewrite insert_first_match.
      rewrite fmap_app, <- app_assoc. cbn.
      rewrite if_truthy_string. unfold done_image. by rewrite (Hw m p Hp).
    + rewrite IH.
      pose proof (find_first (λ x, Image.index x = Z.of_nat m)
        (done_image url <$> take m (pages (store w)))
        (fresh_image <$> drop (S m) (pages (store w))) (fresh_image p)) as Hfind.
      rewrite Hlen in Hfind. apply Hfind; [|cbn; by apply Hw].
      apply Forall_fmap, Forall_lookup. intros j q [Hq Hj]%lookup_take_Some.
      cbn. rewrite (Hw j q Hq). lia.
Qed.

(** X15: a generation started on an outline numbered by position and
    followed by one [updateProgress(page.index, 'done', url)] per page ends
    with every image done and carrying its url, and with
    [progress.current] equal to [progress.total], the number of pages. *)
Theorem every_page_done (url : Z → string) (w : World) :
  indexed (pages (store w)) →
  let w' := exec_image_ops (complete_pages url (pages (store w)))
              (exec startGeneration w) in
  images (store w') = done_image url <$> pages (store w) ∧
  current (store w') = Z.of_nat (length (pages (store w))) ∧
  Progress.total (progress (store w')) = Z.of_nat (length (pages (store w))).
Proof.
  intros Hw w'.
  destruct (exec_image_ops_effect (complete_pages url (pages (store w)))
              (exec startGeneration w)) as (_ & Hc & Hout & _).
  fold w' in Hc, Hout.
  destruct (startGeneration_images w) as (_ & Hzero & Htotal).
  split_and!.
  - pose proof (complete_pages_prefix url w (length (pages (store w))) Hw
                  ltac:(lia)) as H.
    rewrite firstn_all, drop_all in H. cbn in H. by rewrite app_nil_r in H.
  - rewrite Hc, done_calls_complete_pages, Hzero. lia.
  - unfold outside_images in Hout. rewrite <- Htotal. congruence.
Qed.

Lemma every_page_done_witness :
  images (store (exec_image_ops (complete_pages demo_url (pages (store outline_world)))
                   (exec startGeneration outline_world))) =
    done_image demo_url <$> pages (store outline_world) ∧
  current (store (exec_image_ops
                    (complete_pages demo_url (pages (store outline_world)))
                    (exec startGeneration outline_world))) =
    Z.of_nat (length (pages (store outline_world))) ∧
  Progress.total (progress (store (exec_image_ops
                    (complete_pages demo_url (pages (store outline_world)))
                    (exec startGeneration outline_world)))) =
    Z.of_nat (length (pages (store outline_world))).
Proof. apply every_page_done. indexed_by_cases. Defined.

(** ** Failed images *)

(** X16: the three queries on failures return without changing the world
    and agree: [getFailedImages] lists, in order, the images in status
    ['error']; [getFailedPages] lists, in page order, the pages whose index
    one of these images carries; [hasFailedImages] is [true] exactly when
    the first list is not empty, and when it is [false] no page is
    reported. *)
Theorem failure_queries_agree (w : World) :
  ∃ (failedImages : list Image.t) (failedPages : list Page.t) (any : bool),
    run getFailedImages w = (Returned failedImages, w) ∧
    run getFailedPages w = (Returned failedPages, w) ∧
    run hasFailedImages w = (Returned any, w) ∧
    (∀ img, img ∈ failedImages ↔ img ∈ images (store w) ∧ failed img) ∧
    failedImages `sublist_of` images (store w) ∧
    (∀ p, p ∈ failedPages ↔
          p ∈ pages (store w) ∧
          ∃ img, img ∈ failedImages ∧ Image.index img = Page.index p) ∧
    failedPages `sublist_of` pages (store w) ∧
    (any = true ↔ failedImages ≠ []) ∧
    (any = false → failedPages = []).
Proof.
  destruct w as [s ls c].
  unfold getFailedImages, getFailedPages, hasFailedImages. eval_action.
  eexists _, _, _. split_and!; [reflexivity..| | | | | |].
  - intros img. rewrite list_elem_of_filter. tauto.
  - apply sublist_filter.
  - intros p. rewrite list_elem_of_filter, list_elem_of_fmap.
    split.
    + intros [(img & Hindex & Himg) Hp]. eauto.
    + intros (Hp & img & Himg & Hindex). eauto.
  - apply sublist_filter.
  - rewrite bool_decide_eq_true, Exists_exists. split.
    + intros (img & Himg & Hfailed) Hnil.
      assert (img ∈ filter failed (images s)) as Hin
        by (apply list_elem_of_filter; done).
      rewrite Hnil in Hin. by apply not_elem_of_nil in Hin.
    + intros Hne. destruct (filter failed (images s)) as [|img l] eqn:Hf; [done|].
      assert (img ∈ filter failed (images s)) as Hin by (rewrite Hf; left).
      apply list_elem_of_filter in Hin. exists img. tauto.
  - rewrite bool_decide_eq_false, Exists_exists. intros Hnone.
    assert (filter failed (images s) = []) as ->.
    { destruct (filter failed (images s)) as [|img l] eqn:Hf; [done|].
      assert (img ∈ filter failed (images s)) as Hin by (rewrite Hf; left).
      apply list_elem_of_filter in Hin. exfalso. apply Hnone. exists img. tauto. }
    cbn. induction (pages s) as [|p ps IH]; [done|].
    rewrite filter_cons_False; [done|]. apply not_elem_of_nil.
Qed.

(** In an array without two images of one index, giving the image of
    [index] a status other than ['error'] removes it from the failed
    images and leaves the others. *)
Lemma failed_after_update (imgs : list Image.t) (index : Z) (k : nat)
    (img img' : Image.t) :
  NoDup (Image.index <$> imgs) →
  find (λ x, Image.index x = index) imgs = Some (k, img) →
  ¬ failed img' →
  filter failed (<[k := img']> imgs) =
    filter (λ x, Image.index x ≠ index) (filter failed imgs).
Proof.
  intros Hnodup Hfind Himg'.
  destruct (find_index _ _ _ _ Hfind) as [Hk Hindex].
  rewrite <- (take_drop_middle imgs k img Hk) in Hnodup |- *.
  assert (length (take k imgs) = k) as Hlen.
  { rewrite length_take. apply lookup_lt_Some in Hk. lia. }
  rewrite <- Hlen at 1. rewrite insert_first_match.
  rewrite fmap_app, fmap_cons in Hnodup.
  apply NoDup_app in Hnodup as (_ & Hbefore & [Hafter _]%NoDup_cons).
  rewrite !filter_app, !filter_cons.
  rewrite (decide_False (P := failed img')) by done.
  assert (∀ l : list Image.t, (∀ x, x ∈ l → Image.index x ≠ index) →
               filter (λ x, Image.index x ≠ index) (filter failed l) =
               filter failed l) as Hkeep.
  { intros l Hl. apply filter_keeps_all, Forall_forall.
    intros x [_ Hx]%list_elem_of_filter. by apply Hl. }
  assert (∀ x, x ∈ drop (S k) imgs → Image.index x ≠ index) as Hdrop.
  { intros x Hx Heq. apply Hafter. rewrite Hindex, <- Heq.
    by apply list_elem_of_fmap_2. }
  assert (∀ x, x ∈ take k imgs → Image.index x ≠ index) as Htake.
  { intros x Hx Heq. apply (Hbefore (Image.index x)).
    - by apply list_elem_of_fmap_2.
    - rewrite Heq, <- Hindex. left. }
  destruct (decide (failed img)).
  - rewrite filter_cons_False by (intros Hne; by apply Hne).
    by rewrite !Hkeep.
  - by rewrite !Hkeep.
Qed.

(** X17: when no two images carry one index, [setImageRetrying(index)] and
    [updateImage(index, url)] each take the image of that index out of the
    failed images and leave the other failures as they are. *)
Theorem retry_and_replacement_clear_the_failure (w : World) (index : Z)
    (newUrl : string) :
  NoDup (Image.index <$> images (store w)) →
  filter failed (images (store (exec (setImageRetrying index) w))) =
    filter (λ x, Image.index x ≠ index) (filter failed (images (store w))) ∧
  filter failed (images (store (exec (updateImage index newUrl) w))) =
    filter (λ x, Image.index x ≠ index) (filter failed (images (store w))).
Proof.
  intros Hnodup. destruct w as [s ls c]. cbn [store] in *.
  assert (find (λ x, Image.index x = index) (images s) = None →
          filter failed (images s) =
          filter (λ x, Image.index x ≠ index) (filter failed (images s)))
    as Hnone.
  { intros Hnone%list_find_None. symmetry. apply filter_keeps_all.
    rewrite Forall_forall in *. intros x [_ Hx]%list_elem_of_filter.
    by apply Hnone. }
  split.
  - unfold setImageRetrying. eval_action. case_find k img; cbn.
    + eapply failed_after_update; [done|eassumption|by unfold failed].
    + by apply Hnone.
  - unfold updateImage. eval_action. case_find k img; cbn.
    + eapply failed_after_update; [done|eassumption|by unfold failed].
    + by apply Hnone.
Qed.

Lemma retry_and_replacement_clear_the_failure_witness :
  filter failed (images (store (exec (setImageRetrying 1) failed_world))) =
    filter (λ x, Image.index x ≠ 1) (filter failed (images (store failed_world))) ∧
  filter failed (images (store (exec (updateImage 1 "/img/1.png") failed_world))) =
    filter (λ x, Image.index x ≠ 1) (filter failed (images (store failed_world))).
Proof.
  apply retry_and_replacement_clear_the_failure.
  refine (bool_decide_unpack _ _). vm_compute. exact I.
Defined.

(** ** The content flow *)

Lemma run_content_op_effect (op : ContentOp) (w : World) :
  let w' := exec (run_content_op op) w in
  (run (run_content_op op) w).1 = Returned () ∧
  outside_content (store w') = outside_content (store w) ∧
  localStorage w' = localStorage w ∧ clock w' = clock w ∧
  content_consistent (store w').
Proof.
  destruct w as [s ls c]. unfold content_consistent.
  destruct op as [|titles copywriting tags|error|]; cbn [run_content_op];
    unfold startContentGeneration, setContent, saveContentToHistory,
      setContentError, clearContent; eval_action;
    try destruct (truthy (recordId s)); cbn;
    (split_and!; try done; split; intros H; try done;
     try (by destruct H as [? [=]]); eauto).
Qed.

(** X18: no sequence of [startContentGeneration], [setContent],
    [setContentError] and [clearContent] calls touches the stage, the
    outline, the progress, the images or any other part of the world
    outside [content]; and the content carries an error message exactly
    when its status is ['error'], after each of these calls. *)
Theorem content_flow_is_separate (ops : list ContentOp) (w : World) :
  let w' := exec_content_ops ops w in
  outside_content (store w') = outside_content (store w) ∧
  localStorage w' = localStorage w ∧ clock w' = clock w ∧
  (ops ≠ [] ∨ content_consistent (store w) → content_consistent (store w')).
Proof.
  revert w. induction ops as [|op ops IH]; intros w.
  - cbn. split_and!; try done. by intros [|].
  - cbn zeta in *. unfold exec_content_ops in *. cbn [foldl].
    destruct (IH (exec (run_content_op op) w)) as (Ho & Hl & Hc & Hcons).
    destruct (run_content_op_effect op w) as (_ & Ho1 & Hl1 & Hc1 & Hcons1).
    split_and!; [congruence..|]. intros _. apply Hcons. by right.
Qed.

(** ** Saved or not *)

Lemma has_data_spec (t : string) (ps : list Page.t) (imgs : list Image.t) :
  truthy_string t || match length ps with 0%nat => false | S _ => true end
    || match length imgs with 0%nat => false | S _ => true end = false ↔
  t = "" ∧ ps = [] ∧ imgs = [].
Proof.
  rewrite !orb_false_iff, <- !not_true_iff_false, truthy_string_true,
    !nonempty_length.
  destruct (decide (t = "")), ps, imgs; intuition congruence.
Qed.

Section SaveTimeFacts.

Variable Date_toISOString : Z → string.

(** An ISO date is never the empty text. *)
Hypothesis Date_toISOString_nonempty : ∀ t, Date_toISOString t ≠ "".

(** X19: after [setRecordId(id)] with a non-empty id, [hasUnsavedChanges()]
    answers [false], whatever the store holds. *)
Theorem setRecordId_settles_unsaved (w : World) (id : string) :
  id ≠ "" →
  (run (setRecordId Date_toISOString (Some id);; hasUnsavedChanges) w).1 =
    Returned false.
Proof.
  intros Hid%truthy_string_true. destruct w as [s ls c].
  unfold setRecordId, hasUnsavedChanges. eval_action. rewrite Hid. cbn.
  pose proof (Date_toISOString_nonempty c) as Hiso%truthy_string_true.
  by rewrite Hiso.
Qed.

(** X20: after [setRecordId(null)] or [setRecordId('')], [hasUnsavedChanges()]
    answers [false] only for a store without topic, pages and images, and
    a [markSaved()] in between does not change the answer: without a record
    id, the time of saving is not looked at. *)
Theorem unsaved_without_record (w : World) (recordId : option string) :
  is_unset recordId →
  ∃ b, (run (setRecordId Date_toISOString recordId;; hasUnsavedChanges) w).1 =
         Returned b ∧
       (run (setRecordId Date_toISOString recordId;;
             markSaved Date_toISOString;; hasUnsavedChanges) w).1 = Returned b ∧
       (b = false ↔
        topic (store w) = "" ∧ pages (store w) = [] ∧ images (store w) = []).
Proof.
  intros Hunset. destruct w as [s ls c].
  unfold setRecordId, markSaved, hasUnsavedChanges.
  destruct Hunset as [-> | ->]; eval_action;
    (eexists; split_and!; [reflexivity|reflexivity|apply has_data_spec]).
Qed.

End SaveTimeFacts.

Lemma setRecordId_settles_unsaved_witness :
  (run (setRecordId iso_of_example_clock (Some "rec-1");; hasUnsavedChanges)
     result_world).1 = Returned false.
Proof.
  apply setRecordId_settles_unsaved; [intros t; discriminate|discriminate].
Defined.

Lemma unsaved_without_record_witness :
  ∃ b, (run (setRecordId iso_of_example_clock (Some "");; hasUnsavedChanges)
          result_world).1 = Returned b ∧
       (run (setRecordId iso_of_example_clock (Some "");;
             markSaved iso_of_example_clock;; hasUnsavedChanges)
          result_world).1 = Returned b ∧
       (b = false ↔
        topic (store result_world) = "" ∧ pages (store result_world) = [] ∧
        images (store result_world) = []).
Proof. apply unsaved_without_record. right. reflexivity. Defined.

(** ** The snapshot *)

Section SnapshotFacts.

Variable JSON_parse : string → Outcome JsValue.
Variable JSON_stringify : Saved → string.

(** X21: [saveToStorage()] never raises and never changes the store: it
    writes the serialised snapshot under the storage key and keeps the
    other entries, and when the browser denies the storage it does
    nothing. *)
Theorem saveToStorage_never_throws (w : World) :
  run (saveToStorage JSON_stringify) w =
    (Returned (),
     mkWorld (store w)
       (match localStorage w with
        | storage_denied => storage_denied
        | storage_items items =>
            storage_items
              (<[STORAGE_KEY := JSON_stringify (toSave (store w))]> items)
        end)
       (clock w)).
Proof. by destruct w as [s [|items] c]. Qed.

(** X22: a store created from the snapshot that [saveToStorage()] wrote
    starts from the state that was saved, field by field, except that
    [userImages] is empty and that a [taskId], [recordId] or [lastSavedAt]
    equal to the empty text comes back as [null].  The serialised text is
    taken to be non-empty and to parse back to the object. *)
Theorem snapshot_round_trip (w : World) :
  localStorage w ≠ storage_denied →
  JSON_stringify (toSave (store w)) ≠ "" →
  JSON_parse (JSON_stringify (toSave (store w))) =
    Returned (js_object (toSave (store w))) →
  (run (saveToStorage JSON_stringify;; state JSON_parse) w).1 =
    Returned
      (mkState (stage (store w)) (topic (store w)) (outline (store w))
         (progress (store w)) (images (store w)) (or_null (taskId (store w)))
         (or_null (recordId (store w))) [] (content (store w))
         (outlineStatus (store w)) (or_null (lastSavedAt (store w)))).
Proof.
  destruct w as [s [|items] c]; [done|]. cbn [store].
  intros _ Htext%truthy_string_true Hparse.
  unfold saveToStorage, saveState, state, loadState. eval_action.
  rewrite lookup_insert_eq. cbn. rewrite Htext, Hparse. cbn.
  by destruct s as [? ? ? ? ? [?|] [?|] ? ? ? [?|]].
Qed.

End SnapshotFacts.

Lemma snapshot_round_trip_witness :
  (run (saveToStorage stringify_result_world;; state parse_result_world)
     result_world).1 =
    Returned
      (mkState (stage (store result_world)) (topic (store result_world))
         (outline (store result_world)) (progress (store result_world))
         (images (store result_world)) (or_null (taskId (store result_world)))
         (or_null (recordId (store result_world))) []
         (content (store result_world)) (outlineStatus (store result_world))
         (or_null (lastSavedAt (store result_world)))).
Proof.
  apply snapshot_round_trip; [discriminate|discriminate|reflexivity].
Defined.

(** ** The drop of a dragged card *)

(** X23: a drop on a card of the outline, while the dragged card (if any)
    is one of the outline too, never raises: both references of the view
    are cleared, the pages keep their types and contents up to their
    order, and without a dragged card, or on the card where the drag
    started, the world is left as it was. *)
Theorem onDrop_within_the_list (w : World) (d : DragState) (index : Z) :
  (∀ dragged, draggedIndex d = Some dragged →
              0 ≤ dragged < Z.of_nat (length (pages (store w)))) →
  0 ≤ index < Z.of_nat (length (pages (store w))) →
  ∃ w',
    run (onDrop index d) w = (Returned (mkDrag None None), w') ∧
    strip <$> pages (store w') ≡ₚ strip <$> pages (store w) ∧
    (draggedIndex d = None ∨ draggedIndex d = Some index → w' = w).
Proof.
  intros Hdragged Hindex. destruct d as [over [dragged|]]; cbn [draggedIndex] in *.
  2:{ exists w. split_and!; [by destruct w|done|done]. }
  unfold onDrop. cbn [draggedIndex dragOverIndex].
  destruct (decide (dragged ≠ index)) as [Hne|Heq].
  2:{ exists w. split_and!; [by destruct w|done|done]. }
  specialize (Hdragged dragged eq_refl).
  destruct (lookup_lt_is_Some_2 (pages (store w)) (Z.to_nat dragged)) as [p Hp];
    [lia|].
  pose proof (movePage_positions_run w (Z.to_nat dragged) (Z.to_nat index) p Hp
                ltac:(lia)) as Hrun.
  rewrite !Z2Nat.id in Hrun by lia.
  eexists. split_and!.
  - unfold run, mbind, action_bind, bind in *. rewrite Hrun. reflexivity.
  - change (pages (store (put_pages ?ps w))) with ps.
    by apply moved_pages_permutation.
  - intros [[=]|[= ->]]. done.
Qed.

Lemma onDrop_within_the_list_witness :
  ∃ w',
    run (onDrop 2 (mkDrag (Some 1) (Some 0))) outline_world =
      (Returned (mkDrag None None), w') ∧
    strip <$> pages (store w') ≡ₚ strip <$> pages (store outline_world) ∧
    (draggedIndex (mkDrag (Some 1) (Some 0)) = None ∨
     draggedIndex (mkDrag (Some 1) (Some 0)) = Some 2 → w' = outline_world).
Proof.
  apply onDrop_within_the_list.
  - intros dragged [= <-]. bounds_by_computation.
  - bounds_by_computation.
Defined.

(** ** What the reports and the page operations leave behind *)

(** X24: [updateProgress] never removes an error message: when a failure
    was reported for an image and success is reported next, the image is
    done and still carries the message of the failure. *)
Theorem done_after_error_keeps_the_message (w : World) (index : Z)
    (message : string) (url : option string) (k : nat) (img : Image.t) :
  message ≠ "" →
  find (λ x, Image.index x = index) (images (store w)) = Some (k, img) →
  ∃ img',
    images (store (exec (updateProgress index UpdateStatus.error None
                           (Some message);;
                         updateProgress index UpdateStatus.done url None) w))
      !! k = Some img' ∧
    Image.status img' = ImageStatus.done ∧
    Image.error img' = Some message.
Proof.
  intros Hmessage%truthy_string_true Hfind.
  destruct (find_index _ _ _ _ Hfind) as [Hk Hindex].
  destruct w as [s ls c]. cbn [store] in *.
  unfold updateProgress. eval_action. rewrite Hfind. cbn. rewrite Hmessage.
  rewrite (find_insert_same _ _ k img _ Hfind) by done. cbn.
  rewrite list_insert_insert_eq, list_lookup_insert_eq
    by (by eapply lookup_lt_Some).
  eexists. split; [reflexivity|]. by destruct (truthy url).
Qed.

Lemma done_after_error_keeps_the_message_witness :
  ∃ img',
    images (store (exec (updateProgress 2 UpdateStatus.error None
                           (Some "timeout");;
                         updateProgress 2 UpdateStatus.done
                           (Some "/img/2.png") None) generating_world))
      !! 2%nat = Some img' ∧
    Image.status img' = ImageStatus.done ∧
    Image.error img' = Some "timeout".
Proof.
  apply (done_after_error_keeps_the_message generating_world 2 "timeout"
           (Some "/img/2.png") 2
           (Image.mk 2 "" ImageStatus.generating None None None));
    [discriminate|reflexivity].
Defined.

Lemma run_op_outside (op : PageOp) (w : World) :
  outside_outline (store (exec (run_op op) w)) = outside_outline (store w) ∧
  localStorage (exec (run_op op) w) = localStorage w ∧
  clock (exec (run_op op) w) = clock w.
Proof.
  unfold exec.
  destruct op as [type content|afterIndex type content|index|fromIndex toIndex];
    cbn [run_op].
  - by rewrite addPage_run.
  - by rewrite insertPage_run.
  - by rewrite deletePage_run.
  - rewrite movePage_run. by destruct (pages (store w) !! _).
Qed.

(** X25: no sequence of [addPage], [insertPage], [deletePage] and
    [movePage] calls touches anything outside the outline: in particular
    the images of a generation stay as they are, one per page of the
    outline they were made for, when pages are deleted, added or moved. *)
Theorem page_ops_touch_only_the_outline (ops : list PageOp) (w : World) :
  Forall (λ w', outside_outline (store w') = outside_outline (store w) ∧
                localStorage w' = localStorage w ∧ clock w' = clock w)
    (run_ops ops w).
Proof.
  revert w. induction ops as [|op ops IH]; intros w; cbn [run_ops];
    [constructor|].
  destruct (run_op_outside op w) as (Ho & Hl & Hc).
  constructor; [done|].
  eapply Forall_impl; [apply IH|]. cbn. intros w' (? & ? & ?).
  split_and!; congruence.
Qed.
